(** * pix.factory: the PIX class factory

    A shallow embedding of [src/pix/factory.py] (Python 2) and the
    properties of its registry, of class synthesis and of the two
    traversals [iter_children] and [objectfy].

    Python values are references into a store of objects, so that object
    identity, aliasing and the absence of mutation can be stated.  The
    store only ever grows: allocation appends to it and a location is the
    index of an object in it.

    - The methods run in a monad of state and exceptions.  The state is
      the class attribute [Factory._registered] and the store.
    - The keys of a dict are strings, as in decoded JSON, and strings are
      Python 2 [str].  The items of a dict are listed in the order in
      which the dict is gone through; a dict built from items keeps their
      order.
    - A generator is the list of what it yields when it is run to its
      end.
    - The recursive methods take the recursion limit as fuel: where Python
      raises [RuntimeError: maximum recursion depth exceeded] they raise
      [RecursionLimit].
    - The elements of a set are listed in the order in which the set is
      gone through, which has no meaning in Python. *)

From stdpp Require Import base option list gmap strings.

Open Scope string_scope.
Open Scope list_scope.
Open Scope nat_scope.

(** ** Values and objects *)

Abbreviation loc := nat (only parsing).

(** A Python value: an immediate scalar or a reference to a stored object.
    [VOpaque] stands for any other object the factory never looks into
    (a float, a date, ...). *)
Inductive val :=
| VNone
| VBool (b : bool)
| VInt (z : Z)
| VStr (s : string)
| VOpaque (n : nat)
| VRef (l : loc).

(** The classes that can be bases of a synthesized class:
    [pix.model.PIXObject] and the behaviour classes handed to [register]. *)
Inductive klass :=
| PIXObject
| Behavior (id : nat).

(** Modelled from the spec: the instances of a synthesized class, the
    promoted objects.  Their classes, [pix.model.PIXObject] and the
    behaviour classes, are not part of this module.  A promoted object is
    built from the factory and a raw mapping: it wraps that mapping, by
    reference, and keeps a reference to the factory.  It is an instance of
    none of [dict], [list], [tuple] and [set]. *)
Record pix_object := PixObject {
  obj_cls : val;
  obj_factory : val;
  obj_data : val
}.

(** Stored objects.  A dict keeps its items in iteration order; a set keeps
    its elements in iteration order.  [OClass] is a class built by
    [type(name, bases, {})]: its [__name__] and its bases.  [OInst] is an
    instance of such a class, a promoted object. *)
Inductive obj :=
| ODict (items : list (string * val))
| OList (xs : list val)
| OTuple (xs : list val)
| OSet (xs : list val)
| OClass (name : string) (bases : list klass)
| OInst (p : pix_object).

Abbreviation heap := (list obj).

(** The interpreter state the module touches: the class attribute
    [Factory._registered] and the object store. *)
Record state := mkState {
  _registered : gmap string (list klass);
  objects : heap
}.

Definition deref (h : heap) (v : val) : option obj :=
  match v with
  | VRef l => h !! l
  | _ => None
  end.

(** ** Exceptions and the evaluation monad *)

Inductive exn :=
| RecursionLimit   (* RuntimeError: maximum recursion depth exceeded *)
| AttributeError
| TypeError.

Inductive result (A : Type) :=
| Ok (a : A)
| Raise (e : exn).
Arguments Ok {A} a.
Arguments Raise {A} e.

Definition M (A : Type) : Type := state → result A * state.

#[global] Instance M_ret : MRet M := λ A a s, (Ok a, s).

#[global] Instance M_bind : MBind M := λ A B f m s,
  match m s with
  | (Ok a, s') => f a s'
  | (Raise e, s') => (Raise e, s')
  end.

Definition raise {A} (e : exn) : M A := λ s, (Raise e, s).

Definition get_state : M state := λ s, (Ok s, s).

Definition get_heap : M heap := λ s, (Ok (objects s), s).

(** Allocation: the new object goes to the end of the store and its
    location is returned. *)
Definition alloc (o : obj) : M val := λ s,
  (Ok (VRef (length (objects s))),
   mkState (_registered s) (objects s ++ [o])).

(** Reading a dict: [data.iteritems()] and [data.get(key)].  Both are dict
    methods; on anything else the attribute lookup fails. *)
Definition iteritems (data : val) : M (list (string * val)) := λ s,
  match deref (objects s) data with
  | Some (ODict items) => (Ok items, s)
  | _ => (Raise AttributeError, s)
  end.

Fixpoint dict_lookup (key : string) (items : list (string * val))
  : option val :=
  match items with
  | [] => None
  | (k, v) :: rest => if String.eqb k key then Some v else dict_lookup key rest
  end.

(** [d.get(key)]: the value under [key], [None] when there is none. *)
Definition dict_get (key : string) (items : list (string * val)) : val :=
  default VNone (dict_lookup key items).

Definition get_item (data : val) (key : string) : M val :=
  items ← iteritems data; mret (dict_get key items).

(** ** [isinstance] *)

Definition is_dict (h : heap) (v : val) : bool :=
  match deref h v with Some (ODict _) => true | _ => false end.

Definition is_list (h : heap) (v : val) : bool :=
  match deref h v with Some (OList _) => true | _ => false end.

Definition is_tuple (h : heap) (v : val) : bool :=
  match deref h v with Some (OTuple _) => true | _ => false end.

Definition is_set (h : heap) (v : val) : bool :=
  match deref h v with Some (OSet _) => true | _ => false end.

(** The elements [for x in data] goes through, for a list, tuple or set. *)
Definition elements (h : heap) (v : val) : list val :=
  match deref h v with
  | Some (OList xs) | Some (OTuple xs) | Some (OSet xs) => xs
  | _ => []
  end.

(** ** Hashing and [set(...)]

    A set holds hashable values, at most one of each equality class.  The
    key of a value decides both: two hashable values are equal in Python
    exactly when their keys are.  Scalars compare by value ([True == 1]),
    tuples element by element, classes and instances by identity (the
    default of a Python object); dicts, lists and sets are unhashable. *)
#[warnings="-register-all"]
Inductive hkey :=
| KNone
| KInt (z : Z)
| KStr (s : string)
| KOpaque (n : nat)
| KId (l : loc)
| KTuple (ks : list hkey).

Fixpoint hkey_eqb (a b : hkey) {struct a} : bool :=
  match a, b with
  | KNone, KNone => true
  | KInt x, KInt y => Z.eqb x y
  | KStr x, KStr y => String.eqb x y
  | KOpaque x, KOpaque y => Nat.eqb x y
  | KId x, KId y => Nat.eqb x y
  | KTuple xs, KTuple ys =>
      (fix all2 (xs ys : list hkey) {struct xs} : bool :=
         match xs, ys with
         | [], [] => true
         | x :: xs', y :: ys' => hkey_eqb x y && all2 xs' ys'
         | _, _ => false
         end) xs ys
  | _, _ => false
  end.

(** [None] is Python's [TypeError: unhashable type].  The fuel bounds the
    nesting of tuples that is followed. *)
Fixpoint py_hash_key (fuel : nat) (h : heap) (v : val) : option hkey :=
  match v with
  | VNone => Some KNone
  | VBool b => Some (KInt (if b then 1 else 0)%Z)
  | VInt z => Some (KInt z)
  | VStr s => Some (KStr s)
  | VOpaque n => Some (KOpaque n)
  | VRef l =>
      match fuel with
      | O => None
      | S fuel' =>
          match h !! l with
          | Some (OTuple xs) => KTuple <$> mapM (py_hash_key fuel' h) xs
          | Some (OClass _ _) | Some (OInst _) => Some (KId l)
          | _ => None
          end
      end
  end.

(** Inserting keyed values one after the other; a value whose key is
    already there is dropped. *)
Fixpoint dedup_keyed (seen : list hkey) (kvs : list (hkey * val)) : list val :=
  match kvs with
  | [] => []
  | (k, v) :: rest =>
      if existsb (hkey_eqb k) seen then dedup_keyed seen rest
      else v :: dedup_keyed (k :: seen) rest
  end.

(** [set(xs)].  Without a cycle a chain of references is no longer than
    the store, which is the fuel given to the hash.  The iteration order of
    the new set is that of first insertion. *)
Definition py_set (h : heap) (xs : list val) : option (list val) :=
  ks ← mapM (py_hash_key (length h) h) xs;
  Some (dedup_keyed [] (zip ks xs)).

(** ** The factory *)

Section Factory.

(** Two facts about values the module does not fix are taken as given:
    what [str(x)] is for a value that is not a string, and whether an
    opaque object is true. *)
Variable py_repr : heap → val → string.
Variable opaque_truthy : nat → bool.

(** [str(name)] *)
Definition py_str (h : heap) (v : val) : string :=
  match v with
  | VStr s => s
  | _ => py_repr h v
  end.

(** The truth value [if x:] tests.  A container is true when it is not
    empty; classes and instances are true, the default of an object. *)
Definition py_truthy (h : heap) (v : val) : bool :=
  match v with
  | VNone => false
  | VBool b => b
  | VInt z => negb (Z.eqb z 0)
  | VStr s => negb (String.eqb s "")
  | VOpaque n => opaque_truthy n
  | VRef l =>
      match h !! l with
      | Some (ODict items) => negb (Nat.eqb (length items) 0)
      | Some (OList xs) | Some (OTuple xs) | Some (OSet xs) =>
          negb (Nat.eqb (length xs) 0)
      | _ => true
      end
  end.

(** [Factory.register(pixCls)] returns the decorator [_deco]; the list
    under [pixCls] is fetched (or started), extended at its end and
    stored back, and the class is handed back. *)
Definition register (pixCls : string) : klass → M klass :=
  let _deco := λ klass : klass,
    (λ s : state,
       let bases := default [] (_registered s !! pixCls) in
       let bases := bases ++ [klass] in
       (Ok klass, mkState (<[pixCls := bases]> (_registered s)) (objects s)))
  in _deco.

(** [Factory.get_pix_cls(name)]: [type(str(name), tuple(bases), {})].
    The class is a new object each time.  [type] is taken to record the
    name and the bases; the checks Python makes on the bases themselves
    are not part of the model. *)
Definition get_pix_cls (name : val) : M val :=
  s ← get_state;
  let bases := default [PIXObject] (_registered s !! py_str (objects s) name) in
  alloc (OClass (py_str (objects s) name) bases).

(** Modelled from the spec: the constructor of a synthesized class,
    [obj(factory, data)], which is [pix.model.PIXObject.__init__] or that
    of a registered behaviour class and is not part of this module.  The
    new instance wraps the raw mapping it is given, by reference, and
    keeps a reference to the factory; it is an instance of none of
    [dict], [list], [tuple] and [set]. *)
Definition new_instance (cls self data : val) : M val :=
  alloc (OInst (PixObject cls self data)).

(** What one value of the dict contributes to [iter_contents]: itself
    when it is a dict, its dict elements when it is a set, list or
    tuple. *)
Definition contents_of (h : heap) (v : val) : list val :=
  if is_dict h v then [v]
  else if is_set h v || is_list h v || is_tuple h v
       then List.filter (is_dict h) (elements h v)
       else [].

(** What the loop of [iter_contents] yields over the items of a dict, in
    the order of the items and, within a value, of its elements. *)
Definition contents (h : heap) (items : list (string * val)) : list val :=
  concat (map (λ kv, contents_of h kv.2) items).

(** [Factory.iter_contents(data)], as the list of what it yields. *)
Definition iter_contents (data : val) : M (list val) :=
  items ← iteritems data;
  h ← get_heap;
  mret (contents h items).

(** [Factory.iter_children(data, recursive)], as the list of what it
    yields when run to its end.  The fuel is the recursion limit. *)
Fixpoint iter_children (fuel : nat) (self data : val) (recursive : bool)
  : M (list val) :=
  match fuel with
  | O => raise RecursionLimit
  | S fuel' =>
      pixCls ← get_item data "class";
      h ← get_heap;
      own ← (if py_truthy h pixCls then
               obj ← get_pix_cls pixCls;
               o ← new_instance obj self data;
               mret [o]
             else mret []);
      if recursive then
        xs ← iter_contents data;
        rest ← mapM (λ x, iter_children fuel' self x true) xs;
        mret (own ++ concat rest)
      else mret own
  end.

(** [Factory.objectfy(data)] *)
Fixpoint objectfy (fuel : nat) (self data : val) : M val :=
  match fuel with
  | O => raise RecursionLimit
  | S fuel' =>
      h ← get_heap;
      if is_dict h data then
        objCls ← get_item data "class";
        if py_truthy h objCls then
          obj ← get_pix_cls objCls;
          new_instance obj self data
        else
          items ← iteritems data;
          items' ← mapM (λ kv, v' ← objectfy fuel' self kv.2;
                                mret (kv.1, v')) items;
          alloc (ODict items')
      else if is_tuple h data || is_list h data || is_set h data then
        rs ← mapM (objectfy fuel' self) (elements h data);
        results ← alloc (OList rs);
        if is_tuple h data then alloc (OTuple rs)
        else if is_set h data then
          h' ← get_heap;
          match py_set h' rs with
          | Some ys => alloc (OSet ys)
          | None => raise TypeError
          end
        else mret results
      else mret data
  end.

(** ** Raw nodes of bounded nesting

    [nested_within n h v]: every reference met within [n] levels below
    [v] is to a stored object, no chain of containers below [v] is longer
    than [n], and every set met is a set ([valid_set]: its elements are
    hashable and no two are equal).  Classes and instances are leaves. *)
Definition valid_set (h : heap) (xs : list val) : bool :=
  match py_set h xs with
  | Some ys => Nat.eqb (length ys) (length xs)
  | None => false
  end.

Fixpoint nested_within (n : nat) (h : heap) (v : val) : bool :=
  match v with
  | VRef l =>
      match n with
      | O => false
      | S n' =>
          match h !! l with
          | Some (ODict items) => forallb (nested_within n' h) items.*2
          | Some (OList xs) | Some (OTuple xs) => forallb (nested_within n' h) xs
          | Some (OSet xs) => forallb (nested_within n' h) xs && valid_set h xs
          | Some _ => true
          | None => false
          end
      end
  | _ => true
  end.

(** The three kinds of container [objectfy] rebuilds element by
    element. *)
Inductive seq_kind := SeqList | SeqTuple | SeqSet.

Definition container (k : seq_kind) (xs : list val) : obj :=
  match k with
  | SeqList => OList xs
  | SeqTuple => OTuple xs
  | SeqSet => OSet xs
  end.

(** A scalar for [objectfy]: an instance of none of [dict], [list],
    [tuple] and [set]. *)
Definition is_scalar (h : heap) (v : val) : bool :=
  negb (is_dict h v || is_tuple h v || is_list h v || is_set h v).

(** ** The store only grows *)

(** [s'] extends [s]: the registry is the same and every object of [s]
    is in [s'], at the same location and unchanged. *)
Definition extends (s s' : state) : Prop :=
  _registered s' = _registered s ∧ objects s `prefix_of` objects s'.

Definition frame {A} (m : M A) : Prop := ∀ s, extends s (m s).2.

(** [r] is what [f x] returns, run at some point between [s] and
    [s']. *)
Definition yields_between {A B} (f : A → M B) (s s' : state) (x : A) (r : B)
  : Prop :=
  ∃ s1 s2, extends s s1 ∧ f x s1 = (Ok r, s2) ∧ extends s2 s'.

Lemma extends_refl s : extends s s.
Proof. split; [done | apply reflexivity]. Qed.

Lemma extends_trans s1 s2 s3 : extends s1 s2 → extends s2 s3 → extends s1 s3.
Proof.
  intros [R1 P1] [R2 P2]. split; [congruence | by etrans].
Qed.

Lemma extends_lookup s s' l o :
  extends s s' → objects s !! l = Some o → objects s' !! l = Some o.
Proof. intros [_ P] H. by eapply prefix_lookup_Some. Qed.

Lemma extends_length s s' : extends s s' → length (objects s) ≤ length (objects s').
Proof. intros [_ P]. by apply prefix_length. Qed.

Lemma frame_ret {A} (a : A) : frame (mret a).
Proof. intros s. apply extends_refl. Qed.

Lemma frame_raise {A} e : frame (@raise A e).
Proof. intros s. apply extends_refl. Qed.

Lemma frame_bind {A B} (m : M A) (f : A → M B) :
  frame m → (∀ a, frame (f a)) → frame (m ≫= f).
Proof.
  intros Hm Hf s. unfold mbind, M_bind. specialize (Hm s).
  destruct (m s) as [[a | e] s1]; simpl in *; [| done].
  eapply extends_trans; [exact Hm | apply Hf].
Qed.

Lemma frame_alloc o : frame (alloc o).
Proof. intros s. split; [done | by apply prefix_app_r]. Qed.

Lemma frame_get_state : frame get_state.
Proof. intros s. apply extends_refl. Qed.

Lemma frame_get_heap : frame get_heap.
Proof. intros s. apply extends_refl. Qed.

Lemma frame_iteritems data : frame (iteritems data).
Proof.
  intros s. unfold iteritems.
  destruct (deref (objects s) data) as [[]|]; apply extends_refl.
Qed.

Lemma frame_mapM {A B} (f : A → M B) xs :
  (∀ x, frame (f x)) → frame (mapM f xs).
Proof.
  intros Hf. induction xs as [| x xs IH]; [apply frame_ret |].
  cbn [mapM]. apply frame_bind; [apply Hf |]. intros y.
  apply frame_bind; [exact IH |]. intros k. apply frame_ret.
Qed.

Lemma frame_get_item data key : frame (get_item data key).
Proof.
  apply frame_bind; [apply frame_iteritems | intros; apply frame_ret].
Qed.

Lemma frame_get_pix_cls name : frame (get_pix_cls name).
Proof.
  apply frame_bind; [apply frame_get_state | intros; apply frame_alloc].
Qed.

Lemma frame_new_instance cls self data : frame (new_instance cls self data).
Proof. apply frame_alloc. Qed.

Lemma frame_iter_contents data : frame (iter_contents data).
Proof.
  apply frame_bind; [apply frame_iteritems | intros items].
  apply frame_bind; [apply frame_get_heap | intros; apply frame_ret].
Qed.

Create HintDb frame.

#[local] Hint Resolve frame_ret frame_raise frame_alloc frame_get_state
  frame_get_heap frame_iteritems frame_get_item frame_get_pix_cls
  frame_new_instance frame_iter_contents : frame.

Ltac frame_step :=
  first [ solve [auto with frame]
        | apply frame_mapM; intros ?
        | apply frame_bind; [| intros ?] ].

Lemma frame_iter_children fuel self data recursive :
  frame (iter_children fuel self data recursive).
Proof.
  revert data recursive.
  induction fuel as [| fuel IH]; intros data recursive; [apply frame_raise |].
  cbn [iter_children].
  frame_step; [frame_step |]. frame_step; [frame_step |].
  frame_step.
  - destruct (py_truthy _ _); repeat frame_step.
  - destruct recursive; [| frame_step].
    frame_step; [frame_step |]. frame_step; [| frame_step].
    frame_step. apply IH.
Qed.

Lemma frame_objectfy fuel self data : frame (objectfy fuel self data).
Proof.
  revert data.
  induction fuel as [| fuel IH]; intros data; [apply frame_raise |].
  cbn [objectfy]. frame_step; [frame_step |].
  destruct (is_dict _ data).
  - frame_step; [frame_step |].
    destruct (py_truthy _ _); [repeat frame_step |].
    frame_step; [frame_step |]. frame_step; [| frame_step].
    frame_step. frame_step; [apply IH | frame_step].
  - destruct (_ || _); [| frame_step].
    frame_step; [frame_step; apply IH |].
    frame_step; [frame_step |].
    destruct (is_tuple _ data); [frame_step |].
    destruct (is_set _ data); [| frame_step].
    frame_step; [frame_step |].
    destruct (py_set _ _); frame_step.
Qed.

(** ** Running the monad *)

Lemma run_bind {A B} (m : M A) (f : A → M B) s :
  (m ≫= f) s =
  match m s with
  | (Ok a, s') => f a s'
  | (Raise e, s') => (Raise e, s')
  end.
Proof. reflexivity. Qed.

Lemma run_bind_Ok {A B} (m : M A) (f : A → M B) s a s' :
  m s = (Ok a, s') → (m ≫= f) s = f a s'.
Proof. intros H. by rewrite run_bind, H. Qed.

Lemma bind_assoc_M {A B C} (m : M A) (f : A → M B) (g : B → M C) s :
  ((m ≫= f) ≫= g) s = (m ≫= (λ a, f a ≫= g)) s.
Proof. rewrite !run_bind. by destruct (m s) as [[a | e] s1]. Qed.

Lemma run_iteritems s l items :
  objects s !! l = Some (ODict items) → iteritems (VRef l) s = (Ok items, s).
Proof. intros H. unfold iteritems. simpl. by rewrite H. Qed.

Lemma run_get_item s l items key :
  objects s !! l = Some (ODict items) →
  get_item (VRef l) key s = (Ok (dict_get key items), s).
Proof.
  intros H. unfold get_item.
  by rewrite (run_bind_Ok _ _ _ _ _ (run_iteritems _ _ _ H)).
Qed.

Lemma mapM_Ok_inv {A B} (f : A → M B) :
  (∀ x, frame (f x)) →
  ∀ xs s rs s', mapM f xs s = (Ok rs, s') →
    extends s s' ∧ Forall2 (yields_between f s s') xs rs.
Proof.
  intros Hf. induction xs as [| x xs IH]; intros s rs s' H.
  - injection H as <- <-. split; [apply extends_refl | constructor].
  - cbn [mapM] in H. rewrite run_bind in H.
    destruct (f x s) as [[y | e] s1] eqn:Hx; [| done].
    rewrite run_bind in H.
    destruct (mapM f xs s1) as [[k | e] s2] eqn:Hxs; [| done].
    injection H as <- <-.
    destruct (IH _ _ _ Hxs) as [E2 F].
    assert (E1 : extends s s1) by (specialize (Hf x s); by rewrite Hx in Hf).
    split; [by eapply extends_trans |]. constructor.
    + exists s, s1. split; [apply extends_refl | done].
    + eapply Forall2_impl; [exact F |].
      intros a b (t1 & t2 & Ha & Hb & Hc). exists t1, t2.
      split; [by eapply extends_trans | done].
Qed.

Lemma mapM_returns {A B} (f : A → M B) (P : state → A → Prop) :
  (∀ x, frame (f x)) →
  (∀ s s' x, extends s s' → P s x → P s' x) →
  (∀ s x, P s x → ∃ r s', f x s = (Ok r, s')) →
  ∀ xs s, Forall (P s) xs → ∃ rs s', mapM f xs s = (Ok rs, s').
Proof.
  intros Hf Hstable Hret. induction xs as [| x xs IH]; intros s HP.
  - by exists [], s.
  - apply Forall_cons in HP as [Hx Hxs].
    destruct (Hret _ _ Hx) as (y & s1 & Hy).
    assert (E1 : extends s s1) by (specialize (Hf x s); by rewrite Hy in Hf).
    destruct (IH s1) as (k & s2 & Hk).
    { eapply Forall_impl; [exact Hxs |]. intros a. by apply Hstable. }
    exists (y :: k), s2. cbn [mapM].
    rewrite (run_bind_Ok _ _ _ _ _ Hy), (run_bind_Ok _ _ _ _ _ Hk). done.
Qed.

(** ** What stays true when the store grows *)

Lemma deref_prefix h h' v o :
  h `prefix_of` h' → deref h v = Some o → deref h' v = Some o.
Proof.
  intros P. destruct v; simpl; try done. intros H. by eapply prefix_lookup_Some.
Qed.

Lemma py_hash_key_S f h l :
  py_hash_key (S f) h (VRef l) =
  match h !! l with
  | Some (OTuple xs) => KTuple <$> mapM (py_hash_key f h) xs
  | Some (OClass _ _) | Some (OInst _) => Some (KId l)
  | _ => None
  end.
Proof. reflexivity. Qed.

Lemma py_hash_key_prefix f h h' v k :
  h `prefix_of` h' → py_hash_key f h v = Some k → py_hash_key f h' v = Some k.
Proof.
  intros P. revert v k. induction f as [| f IH]; intros [] k; try done.
  rewrite !py_hash_key_S.
  destruct (h !! l) as [o |] eqn:Hl; [| done].
  rewrite (prefix_lookup_Some _ _ _ _ Hl P).
  destruct o; try done.
  destruct (mapM (py_hash_key f h) xs) as [ks |] eqn:Hks; [| done].
  intros [= <-]. apply mapM_Some in Hks.
  assert (Hks' : mapM (py_hash_key f h') xs = Some ks).
  { apply mapM_Some. eapply Forall2_impl; [exact Hks |]. intros; by apply IH. }
  by rewrite Hks'.
Qed.

Lemma py_hash_key_fuel f h v k :
  py_hash_key f h v = Some k → py_hash_key (S f) h v = Some k.
Proof.
  revert v k. induction f as [| f IH]; intros [] k; try done.
  rewrite !py_hash_key_S. destruct (h !! l) as [[] |]; try done.
  destruct (mapM (py_hash_key f h) xs) as [ks |] eqn:Hks; [| done].
  intros [= <-]. apply mapM_Some in Hks.
  assert (Hks' : mapM (py_hash_key (S f) h) xs = Some ks).
  { apply mapM_Some. eapply Forall2_impl; [exact Hks |]. intros; by apply IH. }
  by rewrite Hks'.
Qed.

Lemma py_hash_key_fuel_le f f' h v k :
  f ≤ f' → py_hash_key f h v = Some k → py_hash_key f' h v = Some k.
Proof.
  induction 1 as [| f' _ IH]; [done |]. intros H. by apply py_hash_key_fuel, IH.
Qed.

(** ** The equations of [objectfy], branch by branch *)

Lemma objectfy_S fuel self data :
  objectfy (S fuel) self data =
  (h ← get_heap;
   if is_dict h data then
     objCls ← get_item data "class";
     if py_truthy h objCls then
       obj ← get_pix_cls objCls;
       new_instance obj self data
     else
       items ← iteritems data;
       items' ← mapM (λ kv, v' ← objectfy fuel self kv.2;
                             mret (kv.1, v')) items;
       alloc (ODict items')
   else if is_tuple h data || is_list h data || is_set h data then
     rs ← mapM (objectfy fuel self) (elements h data);
     results ← alloc (OList rs);
     if is_tuple h data then alloc (OTuple rs)
     else if is_set h data then
       h' ← get_heap;
       match py_set h' rs with
       | Some ys => alloc (OSet ys)
       | None => raise TypeError
       end
     else mret results
   else mret data).
Proof. reflexivity. Qed.

Lemma objectfy_scalar fuel self v s :
  is_scalar (objects s) v = true → objectfy (S fuel) self v s = (Ok v, s).
Proof.
  intros H. rewrite objectfy_S, run_bind. unfold get_heap.
  unfold is_scalar in H. apply negb_true_iff in H.
  apply orb_false_iff in H as [H Hs]. apply orb_false_iff in H as [H Hl].
  apply orb_false_iff in H as [Hd Ht].
  by rewrite Hd, Ht, Hl, Hs.
Qed.

Lemma objectfy_dict fuel self s l items :
  objects s !! l = Some (ODict items) →
  objectfy (S fuel) self (VRef l) s =
  (if py_truthy (objects s) (dict_get "class" items) then
     obj ← get_pix_cls (dict_get "class" items);
     new_instance obj self (VRef l)
   else
     items' ← mapM (λ kv, v' ← objectfy fuel self kv.2;
                           mret (kv.1, v')) items;
     alloc (ODict items')) s.
Proof.
  intros H. rewrite objectfy_S, run_bind. unfold get_heap.
  unfold is_dict. cbn [deref]. rewrite H.
  rewrite (run_bind_Ok _ _ _ _ _ (run_get_item _ _ _ "class" H)).
  destruct (py_truthy _ _); [done |].
  by rewrite (run_bind_Ok _ _ _ _ _ (run_iteritems _ _ _ H)).
Qed.

Lemma objectfy_list fuel self s l xs :
  objects s !! l = Some (OList xs) →
  objectfy (S fuel) self (VRef l) s =
  (rs ← mapM (objectfy fuel self) xs; alloc (OList rs)) s.
Proof.
  intros H. rewrite objectfy_S, run_bind. unfold get_heap.
  unfold is_dict, is_tuple, is_list, is_set, elements. cbn [deref]. rewrite H.
  cbn [orb]. rewrite !run_bind.
  destruct (mapM (objectfy fuel self) xs s) as [[rs | e] s1]; [| done].
  by rewrite run_bind.
Qed.

Lemma objectfy_tuple fuel self s l xs :
  objects s !! l = Some (OTuple xs) →
  objectfy (S fuel) self (VRef l) s =
  (rs ← mapM (objectfy fuel self) xs;
   _ ← alloc (OList rs);
   alloc (OTuple rs)) s.
Proof.
  intros H. rewrite objectfy_S, run_bind. unfold get_heap.
  unfold is_dict, is_tuple, is_list, is_set, elements. cbn [deref]. by rewrite H.
Qed.

Lemma objectfy_set fuel self s l xs :
  objects s !! l = Some (OSet xs) →
  objectfy (S fuel) self (VRef l) s =
  (rs ← mapM (objectfy fuel self) xs;
   _ ← alloc (OList rs);
   h' ← get_heap;
   match py_set h' rs with
   | Some ys => alloc (OSet ys)
   | None => raise TypeError
   end) s.
Proof.
  intros H. rewrite objectfy_S, run_bind. unfold get_heap.
  unfold is_dict, is_tuple, is_list, is_set, elements. cbn [deref]. by rewrite H.
Qed.

(** ** Keys

    [hkey_eqb] decides the equality of keys. *)
Lemma hkey_ind_nested (P : hkey → Prop) :
  P KNone → (∀ z, P (KInt z)) → (∀ s, P (KStr s)) → (∀ n, P (KOpaque n)) →
  (∀ l, P (KId l)) → (∀ ks, Forall P ks → P (KTuple ks)) →
  ∀ k, P k.
Proof.
  intros HN HI HS HO HId HT. fix IH 1.
  intros [| z | s | n | l | ks];
    [apply HN | apply HI | apply HS | apply HO | apply HId |].
  apply HT. induction ks as [| k ks IHks]; constructor; [apply IH | exact IHks].
Qed.

Lemma hkey_eqb_eq a b : hkey_eqb a b = true ↔ a = b.
Proof.
  revert b. induction a as [| z | s | n | l | ks IH] using hkey_ind_nested;
    intros [| z' | s' | n' | l' | ks']; simpl; try (split; congruence).
  - rewrite Z.eqb_eq. split; congruence.
  - rewrite String.eqb_eq. split; congruence.
  - rewrite Nat.eqb_eq. split; congruence.
  - rewrite Nat.eqb_eq. split; congruence.
  - revert ks'. induction IH as [| k ks Hk _ IHks]; intros [| k' ks'];
      try (split; congruence).
    rewrite andb_true_iff, Hk, IHks. split.
    + intros [-> [= ->]]. done.
    + intros [= -> ->]. done.
Qed.

(** ** Sets keep their size *)

Lemma dedup_keyed_length seen kvs : length (dedup_keyed seen kvs) ≤ length kvs.
Proof.
  revert seen. induction kvs as [| [k v] kvs IH]; intros seen; simpl; [done |].
  destruct (existsb _ seen); simpl.
  - specialize (IH seen). lia.
  - specialize (IH (k :: seen)). lia.
Qed.

(** When nothing is dropped from one list, nothing is dropped from
    another list with the same keys. *)
Lemma dedup_keyed_full ks : ∀ seen xs rs,
  length xs = length ks → length rs = length ks →
  length (dedup_keyed seen (zip ks xs)) = length xs →
  dedup_keyed seen (zip ks rs) = rs.
Proof.
  induction ks as [| k ks IH]; intros seen [| x xs] [| r rs] Hx Hr Hlen;
    simpl in *; try done.
  destruct (existsb _ seen).
  - pose proof (dedup_keyed_length seen (zip ks xs)) as Hle.
    rewrite length_zip in Hle. lia.
  - simpl in Hlen. f_equal. apply (IH _ xs); lia.
Qed.

Lemma valid_set_keys h xs :
  valid_set h xs = true →
  ∃ ks, mapM (py_hash_key (length h) h) xs = Some ks ∧
        length (dedup_keyed [] (zip ks xs)) = length xs.
Proof.
  unfold valid_set, py_set. intros H.
  destruct (mapM _ xs) as [ks |]; [| done]. simpl in H.
  exists ks. split; [done |]. by apply Nat.eqb_eq.
Qed.

(** A list whose values have, in a larger store, the keys of the elements
    of a set is made into a set without loss. *)
Lemma py_set_same_keys h h' xs rs :
  valid_set h xs = true → length h ≤ length h' →
  Forall2 (λ x r, ∀ f k, py_hash_key f h x = Some k →
                         py_hash_key f h' r = Some k) xs rs →
  py_set h' rs = Some rs.
Proof.
  intros Hv Hlen F. apply valid_set_keys in Hv as (ks & Hks & Hfull).
  apply mapM_Some in Hks.
  assert (Hks' : Forall2 (λ r k, py_hash_key (length h') h' r = Some k) rs ks).
  { clear Hfull. revert ks Hks.
    induction F as [| x r xs rs Hxr F IH]; intros ks Hks;
      inversion Hks; subst; constructor; [| by apply IH].
    eapply py_hash_key_fuel_le; [exact Hlen |]. by apply Hxr. }
  unfold py_set. apply mapM_Some in Hks'. rewrite Hks'. simpl. f_equal.
  apply mapM_Some in Hks'.
  apply (dedup_keyed_full ks [] xs rs); [| | done].
  - by apply Forall2_length in Hks.
  - by apply Forall2_length in Hks'.
Qed.

Lemma valid_set_prefix h h' xs :
  h `prefix_of` h' → valid_set h xs = true → valid_set h' xs = true.
Proof.
  intros P Hv. unfold valid_set.
  rewrite (py_set_same_keys h h' xs xs Hv).
  - apply Nat.eqb_refl.
  - by apply prefix_length.
  - apply Forall_Forall2_diag, Forall_forall. intros x _ f k.
    by apply py_hash_key_prefix.
Qed.

Lemma nested_within_prefix n h h' v :
  h `prefix_of` h' → nested_within n h v = true → nested_within n h' v = true.
Proof.
  intros P. revert v. induction n as [| n IH]; intros [] H; try done.
  cbn [nested_within] in *.
  destruct (h !! l) as [o |] eqn:Hl; [| done].
  rewrite (prefix_lookup_Some _ _ _ _ Hl P).
  assert (Hall : ∀ xs, forallb (nested_within n h) xs = true →
                       forallb (nested_within n h') xs = true).
  { intros xs. rewrite !forallb_forall. intros Hxs x Hx. by apply IH, Hxs. }
  destruct o; auto.
  apply andb_true_iff in H as [H1 H2]. apply andb_true_iff. split; [auto |].
  by eapply valid_set_prefix.
Qed.

Lemma nested_within_S n h v :
  nested_within n h v = true → nested_within (S n) h v = true.
Proof.
  revert v. induction n as [| n IH]; intros [] H; try done.
  cbn [nested_within] in H. change (nested_within (S (S n)) h (VRef l)) with
    (match h !! l with
     | Some (ODict items) => forallb (nested_within (S n) h) items.*2
     | Some (OList xs) | Some (OTuple xs) => forallb (nested_within (S n) h) xs
     | Some (OSet xs) => forallb (nested_within (S n) h) xs && valid_set h xs
     | Some _ => true
     | None => false
     end).
  assert (Hall : ∀ xs, forallb (nested_within n h) xs = true →
                       forallb (nested_within (S n) h) xs = true).
  { intros xs. rewrite !forallb_forall. intros Hxs x Hx. by apply IH, Hxs. }
  destruct (h !! l) as [[] |]; auto.
  apply andb_true_iff in H as [H1 H2]. apply andb_true_iff. auto.
Qed.

(** ** [objectfy] keeps the key of a hashable value *)

Definition same_key (h h' : heap) (x r : val) : Prop :=
  ∀ f k, py_hash_key f h x = Some k → py_hash_key f h' r = Some k.

Lemma is_scalar_leaf h l o :
  h !! l = Some o →
  match o with OClass _ _ | OInst _ => True | _ => False end →
  is_scalar h (VRef l) = true.
Proof.
  intros Hl Ho. unfold is_scalar, is_dict, is_tuple, is_list, is_set.
  cbn [deref]. rewrite Hl. by destruct o.
Qed.

Lemma yields_between_weaken {A B} (f : A → M B) s0 s s' s1 x r :
  extends s0 s → extends s' s1 →
  yields_between f s s' x r → yields_between f s0 s1 x r.
Proof.
  intros E0 E1 (t1 & t2 & Ha & Hb & Hc). exists t1, t2.
  split; [by eapply extends_trans |]. split; [done |]. by eapply extends_trans.
Qed.

Lemma objectfy_key fuel self : ∀ v s r s',
  objectfy fuel self v s = (Ok r, s') → same_key (objects s) (objects s') v r.
Proof.
  induction fuel as [| fuel IH]; intros v s r s' H; [done |].
  intros f k Hk. destruct v as [| | | | | l];
    try (rewrite objectfy_scalar in H by done; by injection H as <- <-).
  destruct f as [| f]; [done |]. rewrite py_hash_key_S in Hk.
  destruct (objects s !! l) as [o |] eqn:Hl; [| done].
  destruct o as [| | xs | | |]; try done;
    try (rewrite objectfy_scalar in H by (by eapply is_scalar_leaf);
         injection H as <- <-; by rewrite py_hash_key_S, Hl).
  rewrite (objectfy_tuple _ _ _ _ _ Hl), run_bind in H.
  destruct (mapM (objectfy fuel self) xs s) as [[rs | e] s1] eqn:Hm; [| done].
  injection H as <- <-.
  destruct (mapM (py_hash_key f (objects s)) xs) as [ks |] eqn:Hks; [| done].
  injection Hk as <-. apply mapM_Some in Hks.
  apply mapM_Ok_inv in Hm as [E1 F]; [| intros; apply frame_objectfy].
  rewrite py_hash_key_S. cbn [objects].
  rewrite (list_lookup_middle _ [] _ _ eq_refl).
  assert (Hgen : ∀ h', objects s1 `prefix_of` h' →
            Forall2 (λ r k, py_hash_key f h' r = Some k) rs ks).
  { intros h' P'. clear Hl. revert ks Hks.
    induction F as [| x r xs rs (t1 & t2 & Ha & Hb & Hc) F IHF]; intros ks Hks;
      inversion Hks as [| ? k ? ks' Hx Hxs]; subst; constructor; [| by apply IHF].
    eapply py_hash_key_prefix; [| eapply (IH _ _ _ _ Hb)].
    - etrans; [apply Hc | exact P'].
    - eapply py_hash_key_prefix; [apply Ha | done]. }
  specialize (Hgen ((objects s1 ++ [OList rs]) ++ [OTuple rs])).
  apply mapM_Some in Hgen as ->; [done |].
  rewrite <- app_assoc. by apply prefix_app_r.
Qed.

(** ** [objectfy] returns on a raw node of bounded nesting *)

Lemma objectfy_returns n self : ∀ v s,
  nested_within n (objects s) v = true →
  ∃ r s', objectfy (S n) self v s = (Ok r, s').
Proof.
  induction n as [| n IH]; intros v s H.
  { destruct v; try done; rewrite objectfy_scalar by done; by eauto. }
  destruct v as [| | | | | l];
    try (rewrite objectfy_scalar by done; by eauto).
  cbn [nested_within] in H.
  destruct (objects s !! l) as [o |] eqn:Hl; [| done].
  assert (Hels : ∀ xs, forallb (nested_within n (objects s)) xs = true →
            ∃ rs s1, mapM (objectfy (S n) self) xs s = (Ok rs, s1)).
  { intros xs Hxs.
    apply (mapM_returns _ (λ s x, nested_within n (objects s) x = true)).
    - intros; apply frame_objectfy.
    - intros t t' x [_ P]. by apply nested_within_prefix.
    - intros t x. apply IH.
    - apply Forall_forall. intros x Hx. eapply forallb_forall; [exact Hxs |].
      by apply list_elem_of_In. }
  destruct o as [items | xs | xs | xs | |].
  - rewrite (objectfy_dict _ _ _ _ _ Hl).
    destruct (py_truthy _ _); [by eauto |].
    destruct (mapM_returns
                (λ kv : string * val, v' ← objectfy (S n) self kv.2;
                                       mret (kv.1, v'))
                (λ s kv, nested_within n (objects s) kv.2 = true))
      with (xs := items) (s := s) as (items' & s1 & Hm).
    + intros kv. apply frame_bind; [apply frame_objectfy | intros; apply frame_ret].
    + intros t t' x [_ P]. by apply nested_within_prefix.
    + intros t x Hx. destruct (IH _ _ Hx) as (r & t' & Hr).
      rewrite (run_bind_Ok _ _ _ _ _ Hr). by eauto.
    + apply Forall_forall. intros kv Hkv. eapply forallb_forall; [exact H |].
      apply in_map, list_elem_of_In, Hkv.
    + rewrite (run_bind_Ok _ _ _ _ _ Hm). by eauto.
  - destruct (Hels _ H) as (rs & s1 & Hm).
    rewrite (objectfy_list _ _ _ _ _ Hl), (run_bind_Ok _ _ _ _ _ Hm). by eauto.
  - destruct (Hels _ H) as (rs & s1 & Hm).
    rewrite (objectfy_tuple _ _ _ _ _ Hl), (run_bind_Ok _ _ _ _ _ Hm). by eauto.
  - apply andb_true_iff in H as [H Hv].
    destruct (Hels _ H) as (rs & s1 & Hm).
    rewrite (objectfy_set _ _ _ _ _ Hl), (run_bind_Ok _ _ _ _ _ Hm).
    pose proof Hm as Hinv.
    apply mapM_Ok_inv in Hinv as [E1 F]; [| intros; apply frame_objectfy].
    rewrite run_bind. cbn [alloc]. rewrite run_bind. cbn [get_heap objects].
    rewrite (py_set_same_keys (objects s) _ xs rs Hv); [by eauto | |].
    + rewrite length_app. pose proof (extends_length _ _ E1). lia.
    + eapply Forall2_impl; [exact F |].
      intros x r (t1 & t2 & Ha & Hb & Hc) f k Hk.
      eapply py_hash_key_prefix; [| eapply (objectfy_key _ _ _ _ _ _ Hb)].
      * etrans; [apply Hc |]. by apply prefix_app_r.
      * eapply py_hash_key_prefix; [apply Ha | done].
  - rewrite objectfy_scalar by (by eapply is_scalar_leaf). by eauto.
  - rewrite objectfy_scalar by (by eapply is_scalar_leaf). by eauto.
Qed.

(** ** Promotion of one mapping *)

(** The class [get_pix_cls] builds for a tag in state [s]. *)
Definition synthesized (s : state) (tag : val) : obj :=
  let name := py_str (objects s) tag in
  OClass name (default [PIXObject] (_registered s !! name)).

Lemma run_get_pix_cls name s :
  get_pix_cls name s =
  (Ok (VRef (length (objects s))),
   mkState (_registered s) (objects s ++ [synthesized s name])).
Proof. reflexivity. Qed.

Lemma run_promote tag self data s :
  (obj ← get_pix_cls tag; new_instance obj self data) s =
  (Ok (VRef (S (length (objects s)))),
   mkState (_registered s)
     (objects s ++ [synthesized s tag;
                    OInst (PixObject (VRef (length (objects s))) self data)])).
Proof.
  rewrite (run_bind_Ok _ _ _ _ _ (run_get_pix_cls tag s)).
  unfold new_instance, alloc. cbn [objects _registered].
  rewrite length_app, Nat.add_comm, <- app_assoc. done.
Qed.

(** ** The equations of [iter_contents] and [iter_children] *)

Lemma run_iter_contents s l items :
  objects s !! l = Some (ODict items) →
  iter_contents (VRef l) s = (Ok (contents (objects s) items), s).
Proof.
  intros H. unfold iter_contents.
  by rewrite (run_bind_Ok _ _ _ _ _ (run_iteritems _ _ _ H)).
Qed.

Lemma iter_children_dict fuel self s l items recursive :
  objects s !! l = Some (ODict items) →
  iter_children (S fuel) self (VRef l) recursive s =
  (own ← (if py_truthy (objects s) (dict_get "class" items) then
            obj ← get_pix_cls (dict_get "class" items);
            o ← new_instance obj self (VRef l);
            mret [o]
          else mret []);
   if recursive then
     xs ← iter_contents (VRef l);
     rest ← mapM (λ x, iter_children fuel self x true) xs;
     mret (own ++ concat rest)
   else mret own) s.
Proof.
  intros H. cbn [iter_children].
  by rewrite (run_bind_Ok _ _ _ _ _ (run_get_item _ _ _ "class" H)).
Qed.

(** A value that is not a dangling reference reads the same in a larger
    store. *)
Definition valid (h : heap) (v : val) : Prop :=
  match v with
  | VRef l => is_Some (h !! l)
  | _ => True
  end.

Lemma nested_within_valid n h v : nested_within n h v = true → valid h v.
Proof.
  destruct v; try done. destruct n; [done |]. cbn [nested_within valid].
  by destruct (h !! l).
Qed.

Lemma deref_prefix_valid h h' v :
  h `prefix_of` h' → valid h v → deref h' v = deref h v.
Proof.
  intros P. destruct v; try done. intros [o Ho]. cbn [deref].
  by rewrite Ho, (prefix_lookup_Some _ _ _ _ Ho P).
Qed.

Lemma is_dict_prefix_valid h h' v :
  h `prefix_of` h' → valid h v → is_dict h' v = is_dict h v.
Proof. intros P Hv. unfold is_dict. by rewrite (deref_prefix_valid h h'). Qed.

Lemma contents_of_prefix n h h' v :
  h `prefix_of` h' → nested_within n h v = true →
  contents_of h' v = contents_of h v.
Proof.
  intros P H. pose proof (nested_within_valid _ _ _ H) as Hv.
  unfold contents_of, is_set, is_list, is_tuple, elements.
  rewrite (is_dict_prefix_valid h h' v P Hv), (deref_prefix_valid h h' v P Hv).
  destruct (is_dict h v); [done |].
  destruct v as [| | | | | l]; try done. destruct n as [| n]; [done |].
  cbn [nested_within deref] in *.
  destruct (h !! l) as [[items | xs | xs | xs | |] |]; try done; cbn [orb];
    try (apply andb_true_iff in H as [H _]);
    (induction xs as [| x xs IH]; [done |]);
    cbn [forallb List.filter] in *; apply andb_true_iff in H as [Hx Hxs];
    rewrite (is_dict_prefix_valid h h' x P (nested_within_valid _ _ _ Hx));
    by rewrite IH.
Qed.

Lemma contents_prefix n h h' items :
  h `prefix_of` h' → forallb (nested_within n h) items.*2 = true →
  contents h' items = contents h items.
Proof.
  intros P. unfold contents. induction items as [| [k v] items IH]; [done |].
  cbn [fmap list_fmap forallb map concat snd]. intros H.
  apply andb_true_iff in H as [Hv H].
  by rewrite (contents_of_prefix n h h' v P Hv), IH.
Qed.

(** The object a mapping contributes itself, [own], when [iter_children]
    is run from [s] and ends in [s']: none without a tag; with a tag, one
    new instance of a new class, wrapping the mapping at [l] itself. *)
Definition own_object (s s' : state) (self : val) (l : loc) (tag : val)
    (own : list val) : Prop :=
  if py_truthy (objects s) tag then
    own = [VRef (S (length (objects s)))] ∧
    objects s' !! length (objects s) = Some (synthesized s tag) ∧
    objects s' !! S (length (objects s)) =
      Some (OInst (PixObject (VRef (length (objects s))) self (VRef l)))
  else own = [].

Lemma own_object_extends s s0 s' self l tag own :
  extends s0 s' → own_object s s0 self l tag own → own_object s s' self l tag own.
Proof.
  intros E. unfold own_object. destruct (py_truthy _ _); [| done].
  intros (-> & Hc & Hi). eauto using extends_lookup.
Qed.

Lemma run_own s self l tag :
  ∃ own s0,
    (if py_truthy (objects s) tag then
       obj ← get_pix_cls tag;
       o ← new_instance obj self (VRef l);
       mret [o]
     else mret []) s = (Ok own, s0) ∧
    extends s s0 ∧ own_object s s0 self l tag own.
Proof.
  unfold own_object. destruct (py_truthy _ _).
  - eexists _, _. split; [| split].
    + rewrite <- (bind_assoc_M (get_pix_cls tag)).
      rewrite (run_bind_Ok _ _ _ _ _ (run_promote tag self (VRef l) s)). done.
    + split; [done | by apply prefix_app_r].
    + cbn [objects]. split; [done |]. split.
      * by apply list_lookup_middle.
      * rewrite lookup_app_r by lia.
        by replace (S (length (objects s)) - length (objects s)) with 1 by lia.
  - exists [], s. split; [done |]. split; [apply extends_refl | done].
Qed.

(** What [iter_contents] yields are mappings, one level down. *)
Lemma contents_of_nested n h v x :
  nested_within n h v = true → In x (contents_of h v) →
  nested_within n h x = true ∧ is_dict h x = true.
Proof.
  intros H. unfold contents_of. destruct (is_dict h v) eqn:Hd.
  { intros [<- | []]. done. }
  destruct (_ || _); [| done]. intros Hx. apply filter_In in Hx as [Hx Hdx].
  split; [| done]. unfold elements in Hx.
  destruct v as [| | | | | l]; try done. destruct n as [| n]; [done |].
  apply nested_within_S. cbn [nested_within deref] in *.
  destruct (h !! l) as [[items | xs | xs | xs | |] |]; try done;
    try (apply andb_true_iff in H as [H _]);
    by eapply forallb_forall.
Qed.

Lemma contents_nested n h items x :
  forallb (nested_within n h) items.*2 = true → In x (contents h items) →
  nested_within n h x = true ∧ is_dict h x = true.
Proof.
  unfold contents. intros H Hx. apply in_concat in Hx as (ys & Hys & Hx).
  apply in_map_iff in Hys as (kv & <- & Hkv).
  eapply contents_of_nested; [| exact Hx].
  eapply forallb_forall; [exact H |]. by apply in_map.
Qed.

(** What [iter_contents] yields, as a set: the values of the dict that are
    dicts, and the dicts among the elements of the values that are lists,
    tuples or sets. *)
Lemma in_contents h items x :
  In x (contents h items) ↔
  is_dict h x = true ∧
  ∃ k v, In (k, v) items ∧
         (v = x ∨ (is_dict h v = false ∧ In x (elements h v))).
Proof.
  unfold contents. rewrite in_concat. split.
  - intros (ys & Hys & Hx). apply in_map_iff in Hys as ([k v] & <- & Hkv).
    unfold contents_of in Hx. cbn [snd] in Hx.
    destruct (is_dict h v) eqn:Hd.
    + destruct Hx as [<- | []]. split; [done |]. exists k, v. by auto.
    + destruct (_ || _); [| done]. apply filter_In in Hx as [Hx Hdx].
      split; [done |]. exists k, v. by auto.
  - intros (Hdx & k & v & Hkv & Hv).
    exists (contents_of h v). split; [by apply (in_map (λ kv, contents_of h kv.2) _ (k, v)) |].
    unfold contents_of. destruct Hv as [-> | [Hd Hx]].
    + rewrite Hdx. by left.
    + rewrite Hd.
      assert (Hseq : is_set h v || is_list h v || is_tuple h v = true).
      { unfold elements, is_set, is_list, is_tuple in *.
        by destruct (deref h v) as [[] |]. }
      rewrite Hseq. apply filter_In. done.
Qed.

(** ** [iter_children] returns on a mapping of bounded nesting *)

Lemma iter_children_returns n self : ∀ v s,
  nested_within n (objects s) v = true → is_dict (objects s) v = true →
  ∃ r s', iter_children (S n) self v true s = (Ok r, s').
Proof.
  induction n as [| n IH]; intros v s H Hd.
  { destruct v; try done. }
  destruct v as [| | | | | l]; try done.
  unfold is_dict in Hd. cbn [nested_within deref] in *.
  destruct (objects s !! l) as [[items | | | | |] |] eqn:Hl; try done.
  rewrite (iter_children_dict _ _ _ _ _ _ Hl).
  destruct (run_own s self l (dict_get "class" items)) as (own & s0 & Ho & E0 & _).
  rewrite (run_bind_Ok _ _ _ _ _ Ho).
  rewrite (run_bind_Ok _ _ _ _ _
             (run_iter_contents _ _ _ (extends_lookup _ _ _ _ E0 Hl))).
  destruct (mapM_returns (λ x, iter_children (S n) self x true)
              (λ s x, nested_within n (objects s) x = true ∧
                      is_dict (objects s) x = true))
    with (xs := contents (objects s0) items) (s := s0) as (rest & s1 & Hm).
  - intros; apply frame_iter_children.
  - intros t t' x [_ P] [Hx Hdx]. split; [by eapply nested_within_prefix |].
    rewrite (is_dict_prefix_valid _ _ _ P); [done |].
    by eapply nested_within_valid.
  - intros t x [Hx Hdx]. by apply IH.
  - destruct E0 as [_ P0]. rewrite (contents_prefix n _ _ _ P0 H).
    apply Forall_forall. intros x Hx. apply list_elem_of_In in Hx.
    destruct (contents_nested _ _ _ _ H Hx) as [Hn Hdx].
    split; [by eapply nested_within_prefix |].
    rewrite (is_dict_prefix_valid _ _ _ P0); [done |].
    by eapply nested_within_valid.
  - rewrite (run_bind_Ok _ _ _ _ _ Hm). by eauto.
Qed.

(** One step of the traversal of a mapping: its own object, then what
    each of its contents yields, in order. *)
Lemma iter_children_run n self s l items :
  objects s !! l = Some (ODict items) →
  nested_within n (objects s) (VRef l) = true →
  ∃ own rest s',
    iter_children (S n) self (VRef l) true s = (Ok (own ++ concat rest), s') ∧
    own_object s s' self l (dict_get "class" items) own ∧
    Forall2 (yields_between (λ x, iter_children n self x true) s s')
      (contents (objects s) items) rest.
Proof.
  intros Hl H.
  destruct (iter_children_returns n self (VRef l) s H) as (r & s' & Hr).
  { unfold is_dict. cbn [deref]. by rewrite Hl. }
  destruct n as [| n]; [done |]. cbn [nested_within] in H. rewrite Hl in H.
  rewrite (iter_children_dict _ _ _ _ _ _ Hl) in Hr |- *.
  destruct (run_own s self l (dict_get "class" items)) as (own & s0 & Ho & E0 & Hown).
  rewrite (run_bind_Ok _ _ _ _ _ Ho) in Hr |- *.
  rewrite (run_bind_Ok _ _ _ _ _
             (run_iter_contents _ _ _ (extends_lookup _ _ _ _ E0 Hl))) in Hr |- *.
  pose proof E0 as [_ P0]. rewrite (contents_prefix _ _ _ _ P0 H) in Hr |- *.
  rewrite run_bind in Hr |- *.
  destruct (mapM (λ x, iter_children (S n) self x true)
              (contents (objects s) items) s0) as [[rest | e] s1] eqn:Hm;
    [| done].
  apply mapM_Ok_inv in Hm as [E1 F]; [| intros; apply frame_iter_children].
  exists own, rest, s1. split; [done |]. split.
  - by eapply own_object_extends.
  - eapply Forall2_impl; [exact F |]. intros x y Hxy.
    eapply yields_between_weaken; [exact E0 | apply extends_refl | exact Hxy].
Qed.

(** ** The elements of a container, one after the other *)

Lemma objectfy_elements n self s xs :
  forallb (nested_within n (objects s)) xs = true →
  ∃ rs s1,
    mapM (objectfy (S n) self) xs s = (Ok rs, s1) ∧ extends s s1 ∧
    Forall2 (yields_between (objectfy (S n) self) s s1) xs rs.
Proof.
  intros H.
  destruct (mapM_returns (objectfy (S n) self)
              (λ s x, nested_within n (objects s) x = true))
    with (xs := xs) (s := s) as (rs & s1 & Hm).
  - intros; apply frame_objectfy.
  - intros t t' x [_ P]. by apply nested_within_prefix.
  - intros t x. apply objectfy_returns.
  - apply Forall_forall. intros x Hx. eapply forallb_forall; [exact H |].
    by apply list_elem_of_In.
  - exists rs, s1. split; [done |].
    apply mapM_Ok_inv in Hm; [done | intros; apply frame_objectfy].
Qed.

Lemma objectfy_items n self s (items : list (string * val)) :
  forallb (nested_within n (objects s)) items.*2 = true →
  ∃ items' s1,
    mapM (λ kv, v' ← objectfy (S n) self kv.2; mret (kv.1, v')) items s =
      (Ok items', s1) ∧
    extends s s1 ∧ items'.*1 = items.*1 ∧
    Forall2 (yields_between (objectfy (S n) self) s s1) items.*2 items'.*2.
Proof.
  intros H.
  set (f := λ kv : string * val, v' ← objectfy (S n) self kv.2; mret (kv.1, v')).
  assert (Hf : ∀ kv, frame (f kv)).
  { intros kv. apply frame_bind; [apply frame_objectfy | intros; apply frame_ret]. }
  destruct (mapM_returns f (λ s kv, nested_within n (objects s) kv.2 = true))
    with (xs := items) (s := s) as (items' & s1 & Hm).
  - exact Hf.
  - intros t t' x [_ P]. by apply nested_within_prefix.
  - intros t x Hx. destruct (objectfy_returns _ self _ _ Hx) as (r & t' & Hr).
    unfold f. rewrite (run_bind_Ok _ _ _ _ _ Hr). by eauto.
  - apply Forall_forall. intros kv Hkv. eapply forallb_forall; [exact H |].
    apply in_map, list_elem_of_In, Hkv.
  - exists items', s1. split; [done |].
    apply mapM_Ok_inv in Hm as [E F]; [| exact Hf]. split; [done |].
    clear H. induction F as [| kv kv' items items' (t1 & t2 & Ha & Hb & Hc) F [IH1 IH2]].
    { split; [done | constructor]. }
    unfold f in Hb. rewrite run_bind in Hb.
    destruct (objectfy (S n) self kv.2 t1) as [[v' | e] t] eqn:Hv; [| done].
    injection Hb as <- <-. cbn [fmap list_fmap fst snd].
    split; [by f_equal |]. constructor; [| done]. by exists t1, t.
Qed.

(** An untagged mapping is copied, value by value.  The copy is a new
    object. *)
Lemma objectfy_untagged n self s l items :
  objects s !! l = Some (ODict items) →
  py_truthy (objects s) (dict_get "class" items) = false →
  nested_within (S n) (objects s) (VRef l) = true →
  ∃ r items' s',
    objectfy (S (S n)) self (VRef l) s = (Ok (VRef r), s') ∧
    length (objects s) ≤ r ∧
    objects s' !! r = Some (ODict items') ∧
    items'.*1 = items.*1 ∧
    Forall2 (yields_between (objectfy (S n) self) s s') items.*2 items'.*2.
Proof.
  intros Hl Htag H. cbn [nested_within] in H. rewrite Hl in H.
  destruct (objectfy_items n self s items H) as (items' & s1 & Hm & E & Hk & F).
  exists (length (objects s1)), items', (mkState (_registered s1) (objects s1 ++ [ODict items'])).
  rewrite (objectfy_dict _ _ _ _ _ Hl), Htag, (run_bind_Ok _ _ _ _ _ Hm).
  split; [done |]. split; [by apply extends_length |].
  split; [by apply list_lookup_middle |]. split; [done |].
  eapply Forall2_impl; [exact F |]. intros x y Hxy.
  eapply yields_between_weaken; [apply extends_refl | | exact Hxy].
  apply frame_alloc.
Qed.

Lemma nested_within_le n m h v :
  n ≤ m → nested_within n h v = true → nested_within m h v = true.
Proof.
  induction 1 as [| m _ IH]; [done |]. intros H. by apply nested_within_S, IH.
Qed.

Lemma elements_same_key fuel self s s1 xs rs h' :
  Forall2 (yields_between (objectfy fuel self) s s1) xs rs →
  objects s1 `prefix_of` h' →
  Forall2 (same_key (objects s) h') xs rs.
Proof.
  intros F P. eapply Forall2_impl; [exact F |].
  intros x r (t1 & t2 & Ha & Hb & Hc) f k Hk.
  eapply py_hash_key_prefix; [| eapply (objectfy_key _ _ _ _ _ _ Hb)].
  - etrans; [apply Hc | exact P].
  - eapply py_hash_key_prefix; [apply Ha | done].
Qed.

Lemma immediate_is_scalar h v :
  match v with VRef _ => False | _ => True end → is_scalar h v = true.
Proof. by destruct v. Qed.

(** ** A higher recursion limit changes no result

    [below m m']: whatever [m] returns, [m'] returns too, with the same
    final state. *)
Definition below {A} (m m' : M A) : Prop :=
  ∀ s r s', m s = (Ok r, s') → m' s = (Ok r, s').

Lemma below_refl {A} (m : M A) : below m m.
Proof. by intros s r s'. Qed.

Lemma below_bind {A B} (m m' : M A) (f f' : A → M B) :
  below m m' → (∀ a, below (f a) (f' a)) → below (m ≫= f) (m' ≫= f').
Proof.
  intros Hm Hf s r s'. rewrite !run_bind.
  destruct (m s) as [[a | e] s1] eqn:Ha; [| done].
  rewrite (Hm _ _ _ Ha). apply Hf.
Qed.

Lemma below_mapM {A B} (f f' : A → M B) xs :
  (∀ x, below (f x) (f' x)) → below (mapM f xs) (mapM f' xs).
Proof.
  intros Hf. induction xs as [| x xs IH]; [apply below_refl |].
  cbn [mapM]. apply below_bind; [apply Hf | intros y].
  apply below_bind; [exact IH | intros; apply below_refl].
Qed.

Lemma objectfy_fuel_S fuel self data :
  below (objectfy fuel self data) (objectfy (S fuel) self data).
Proof.
  revert data. induction fuel as [| fuel IH]; intros data; [by intros s r s' |].
  rewrite (objectfy_S (S fuel)), (objectfy_S fuel).
  apply below_bind; [apply below_refl | intros h].
  destruct (is_dict h data).
  - apply below_bind; [apply below_refl | intros objCls].
    destruct (py_truthy h objCls); [apply below_refl |].
    apply below_bind; [apply below_refl | intros items].
    apply below_bind; [| intros; apply below_refl].
    apply below_mapM. intros kv.
    apply below_bind; [apply IH | intros; apply below_refl].
  - destruct (_ || _); [| apply below_refl].
    apply below_bind; [| intros; apply below_refl].
    apply below_mapM, IH.
Qed.

Lemma iter_children_fuel_S fuel self data recursive :
  below (iter_children fuel self data recursive)
        (iter_children (S fuel) self data recursive).
Proof.
  revert data recursive.
  induction fuel as [| fuel IH]; intros data recursive; [by intros s r s' |].
  change (below
    (pixCls ← get_item data "class";
     h ← get_heap;
     own ← (if py_truthy h pixCls then
              obj ← get_pix_cls pixCls;
              o ← new_instance obj self data;
              mret [o]
            else mret []);
     if recursive then
       xs ← iter_contents data;
       rest ← mapM (λ x, iter_children fuel self x true) xs;
       mret (own ++ concat rest)
     else mret own)
    (pixCls ← get_item data "class";
     h ← get_heap;
     own ← (if py_truthy h pixCls then
              obj ← get_pix_cls pixCls;
              o ← new_instance obj self data;
              mret [o]
            else mret []);
     if recursive then
       xs ← iter_contents data;
       rest ← mapM (λ x, iter_children (S fuel) self x true) xs;
       mret (own ++ concat rest)
     else mret own)).
  apply below_bind; [apply below_refl | intros pixCls].
  apply below_bind; [apply below_refl | intros h].
  apply below_bind; [apply below_refl | intros own].
  destruct recursive; [| apply below_refl].
  apply below_bind; [apply below_refl | intros xs].
  apply below_bind; [| intros; apply below_refl].
  apply below_mapM. intros x. apply IH.
Qed.

(** [None], booleans, numbers, strings and opaque objects are returned as
    they are. *)
Lemma objectfy_immediate fuel self s v :
  match v with VRef _ => False | _ => True end →
  objectfy (S fuel) self v s = (Ok v, s).
Proof. intros H. by apply objectfy_scalar, immediate_is_scalar. Qed.

(** ** The registry *)

Lemma run_register name B s :
  register name B s =
  (Ok B, mkState (<[name := default [] (_registered s !! name) ++ [B]]>
                    (_registered s)) (objects s)).
Proof. reflexivity. Qed.

Lemma register_all name : ∀ Bs B s,
  mapM (register name) (B :: Bs) s =
  (Ok (B :: Bs),
   mkState (<[name := default [] (_registered s !! name) ++ B :: Bs]>
              (_registered s)) (objects s)).
Proof.
  induction Bs as [| B' Bs IH]; intros B s.
  - cbn [mapM]. by rewrite (run_bind_Ok _ _ _ _ _ (run_register name B s)).
  - change (mapM (register name) (B :: B' :: Bs)) with
      (y ← register name B; k ← mapM (register name) (B' :: Bs); mret (y :: k)).
    rewrite (run_bind_Ok _ _ _ _ _ (run_register name B s)).
    rewrite (run_bind_Ok _ _ _ _ _ (IH B' _)). cbn [_registered objects].
    rewrite lookup_insert_eq, insert_insert_eq. cbn [default id].
    by rewrite <- app_assoc.
Qed.

Lemma run_get_pix_cls_registered name bases s :
  _registered s !! name = Some bases →
  get_pix_cls (VStr name) s =
  (Ok (VRef (length (objects s))),
   mkState (_registered s) (objects s ++ [OClass name bases])).
Proof.
  intros H. rewrite run_get_pix_cls. unfold synthesized, py_str. by rewrite H.
Qed.

(** * The claims *)







(** C7. [objectfy] of a promoted object returns that very object, and
    builds nothing. *)
Theorem objectfy_promoted_object fuel self s l cls factory data :
  objects s !! l = Some (OInst (PixObject cls factory data)) →
  objectfy (S fuel) self (VRef l) s = (Ok (VRef l), s).
Proof. intros Hl. apply objectfy_scalar. by eapply is_scalar_leaf. Qed.

(** C8. [objectfy] of a value that is no dict, list, tuple or set returns
    the value itself, and builds nothing. *)
Theorem objectfy_scalar_identity fuel self s v :
  is_scalar (objects s) v = true →
  objectfy (S fuel) self v s = (Ok v, s).
Proof. apply objectfy_scalar. Qed.

(** C9. [objectfy], [iter_children] and [iter_contents] change no object
    that was there before the call and leave the registry as it was:
    after [objectfy] and [iter_children] the store is the one before with
    new objects after it, whatever the outcome, and [iter_contents]
    leaves the whole state as it was. *)
Theorem traversals_do_not_mutate fuel self data recursive s :
  extends s (objectfy fuel self data s).2 ∧
  extends s (iter_children fuel self data recursive s).2 ∧
  (iter_contents data s).2 = s.
Proof.
  split; [apply frame_objectfy |]. split; [apply frame_iter_children |].
  unfold iter_contents. rewrite run_bind. unfold iteritems.
  by destruct (deref (objects s) data) as [[] |].
Qed.


(** * Further properties of the module *)

(** ** The registry *)

(** X1. Registering under one name leaves the list under every other name
    as it was, and touches no object. *)
Theorem register_other_names name other B s :
  other ≠ name →
  _registered (register name B s).2 !! other = _registered s !! other ∧
  objects (register name B s).2 = objects s.
Proof.
  intros H. rewrite run_register. cbn [snd _registered objects].
  split; [by apply lookup_insert_ne | done].
Qed.

(** No name is registered with an empty list. *)
Definition no_empty_entry (reg : gmap string (list klass)) : Prop :=
  map_Forall (λ _ bases, bases ≠ []) reg.



(** ** What is not a mapping *)

(** A value without the methods of a dict: [None], a boolean, a number, a
    string, a list, a tuple or a set. *)
Definition not_a_mapping (h : heap) (v : val) : bool :=
  match v with
  | VNone | VBool _ | VInt _ | VStr _ => true
  | VOpaque _ => false
  | VRef l =>
      match h !! l with
      | Some (OList _) | Some (OTuple _) | Some (OSet _) => true
      | _ => false
      end
  end.

(** X5. On a value that is not a mapping both iterators raise
    [AttributeError] and build nothing, whatever the recursion limit (above
    zero) and the flag. *)
Theorem iterators_need_a_mapping fuel self v recursive s :
  not_a_mapping (objects s) v = true →
  iter_contents v s = (Raise AttributeError, s) ∧
  iter_children (S fuel) self v recursive s = (Raise AttributeError, s).
Proof.
  intros H.
  assert (Hit : iteritems v s = (Raise AttributeError, s)).
  { unfold iteritems. destruct v as [| | | | | l]; try done. cbn [deref].
    cbn [not_a_mapping] in H. by destruct (objects s !! l) as [[] |]. }
  split.
  - unfold iter_contents. by rewrite run_bind, Hit.
  - cbn [iter_children]. unfold get_item. by rewrite !run_bind, Hit.
Qed.

(** X4. On a mapping [iter_contents] changes nothing and yields dicts
    only: the values of the mapping that are dicts and the dicts among the
    elements of the values that are lists, tuples or sets.  It does not
    look further down. *)
Theorem iter_contents_yields s l items :
  objects s !! l = Some (ODict items) →
  ∃ xs,
    iter_contents (VRef l) s = (Ok xs, s) ∧
    ∀ x, In x xs ↔
         is_dict (objects s) x = true ∧
         ∃ k v, In (k, v) items ∧
                (v = x ∨ (is_dict (objects s) v = false ∧
                          In x (elements (objects s) v))).
Proof.
  intros Hl. exists (contents (objects s) items).
  split; [by apply run_iter_contents | apply in_contents].
Qed.


(** ** The recursion limit *)

Lemma below_trans {A} (m1 m2 m3 : M A) : below m1 m2 → below m2 m3 → below m1 m3.
Proof. intros H1 H2 s r s' H. by apply H2, H1. Qed.


(** X12. [objectfy] returns, for a hashable value, a value with the same
    key: what it returns is equal to what it was given, as [==] and
    [hash] see it. *)
Theorem objectfy_keeps_key fuel self v s r s' f k :
  objectfy fuel self v s = (Ok r, s') →
  py_hash_key f (objects s) v = Some k →
  py_hash_key f (objects s') r = Some k.
Proof. intros H. by apply (objectfy_key _ _ _ _ _ _ H). Qed.

(** ** What the traversals build

    A store is closed when no dict, list, tuple or set in it holds a
    reference to nothing, as in any Python heap. *)
Definition in_store (h : heap) (v : val) : bool :=
  match v with
  | VRef l => l <? length h
  | _ => true
  end.

Definition children (o : obj) : list val :=
  match o with
  | ODict items => items.*2
  | OList xs | OTuple xs | OSet xs => xs
  | _ => []
  end.

Definition closed (h : heap) : bool :=
  forallb (λ o, forallb (in_store h) (children o)) h.

(** What a new object may be, seen from the store [h'] it ends up in:
    anything but an instance, or an instance that refers to the factory
    [self], wraps, by reference, a mapping of the store [h0] that has a
    ['class'] entry, and whose class is a stored class, named by that entry
    when the entry is a string. *)
Definition promotes_mapping_of (h0 : heap) (self : val) (h' : heap) (o : obj)
  : Prop :=
  match o with
  | OInst p =>
      obj_factory p = self ∧
      ∃ d items tag c name bases,
        obj_data p = VRef d ∧ h0 !! d = Some (ODict items) ∧
        dict_lookup "class" items = Some tag ∧
        obj_cls p = VRef c ∧ h' !! c = Some (OClass name bases) ∧
        (∀ str, tag = VStr str → name = str)
  | _ => True
  end.

(** [news P s s']: [s'] extends [s], and every object of [s'] that is not
    in [s] is as [P] says. *)
Definition news (P : heap → obj → Prop) (s s' : state) : Prop :=
  extends s s' ∧
  ∀ i o, length (objects s) ≤ i → objects s' !! i = Some o → P (objects s') o.

Section News.

Variable s0 : state.
Variable P : heap → obj → Prop.
Hypothesis P_stable : ∀ h h' o, h `prefix_of` h' → P h o → P h' o.

(** [builds m]: run from any state that extends [s0], [m] builds only
    objects as [P] says, whatever its outcome. *)
Definition builds {A} (m : M A) : Prop :=
  ∀ t, extends s0 t → news P t (m t).2.

Lemma news_refl s : news P s s.
Proof.
  split; [apply extends_refl |]. intros i o Hi Ho.
  apply lookup_lt_Some in Ho. lia.
Qed.

Lemma news_trans s1 s2 s3 : news P s1 s2 → news P s2 s3 → news P s1 s3.
Proof.
  intros [E1 N1] [E2 N2]. split; [by eapply extends_trans |].
  intros i o Hi Ho. destruct (decide (i < length (objects s2))) as [Hlt | Hge].
  - destruct (lookup_lt_is_Some_2 _ _ Hlt) as [o' Ho'].
    pose proof (extends_lookup _ _ _ _ E2 Ho') as Ho''.
    assert (o' = o) as -> by congruence.
    eapply P_stable; [apply E2 | apply (N1 i); [done | done]].
  - apply (N2 i); [lia | done].
Qed.

Lemma news_alloc s o :
  P (objects s ++ [o]) o → news P s (alloc o s).2.
Proof.
  intros Ho. split; [apply frame_alloc |]. cbn [alloc snd objects].
  intros i o' Hi Hlk. rewrite lookup_app_r in Hlk by done.
  destruct (i - length (objects s)) as [| j]; [| done].
  by injection Hlk as <-.
Qed.

Lemma builds_ret {A} (a : A) : builds (mret a).
Proof. intros t _. apply news_refl. Qed.

Lemma builds_raise {A} e : builds (@raise A e).
Proof. intros t _. apply news_refl. Qed.

Lemma builds_alloc o : (∀ h, P h o) → builds (alloc o).
Proof. intros Ho t _. by apply news_alloc. Qed.

Lemma builds_get_heap : builds get_heap.
Proof. intros t _. apply news_refl. Qed.

(** The continuation may use what [m] returned and from which state. *)
Lemma builds_bind_run {A B} (m : M A) (f : A → M B) :
  builds m →
  (∀ t a t1, extends s0 t → m t = (Ok a, t1) → news P t1 (f a t1).2) →
  builds (m ≫= f).
Proof.
  intros Hm Hf t Ht. specialize (Hm t Ht). rewrite run_bind.
  destruct (m t) as [[a | e] t1] eqn:Ha; cbn [snd] in *; [| done].
  eapply news_trans; [exact Hm | by eapply Hf].
Qed.

Lemma builds_bind {A B} (m : M A) (f : A → M B) :
  builds m → (∀ a, builds (f a)) → builds (m ≫= f).
Proof.
  intros Hm Hf. apply builds_bind_run; [done |].
  intros t a t1 Ht Ha. apply Hf. eapply extends_trans; [exact Ht |].
  specialize (Hm t Ht). rewrite Ha in Hm. apply Hm.
Qed.

Lemma builds_mapM {A B} (f : A → M B) xs :
  (∀ x, In x xs → builds (f x)) → builds (mapM f xs).
Proof.
  induction xs as [| x xs IH]; intros Hf; [apply builds_ret |].
  cbn [mapM]. apply builds_bind; [apply Hf; by left | intros y].
  apply builds_bind; [| intros; apply builds_ret].
  apply IH. intros x' Hx'. apply Hf. by right.
Qed.

End News.

Lemma promotes_mapping_of_stable h0 self h h' o :
  h `prefix_of` h' →
  promotes_mapping_of h0 self h o → promotes_mapping_of h0 self h' o.
Proof.
  intros Hp. destruct o as [| | | | | p]; try done.
  intros (Hf & d & items & tag & c & name & bases & Hd & Hm & Ht & Hc & Hcl & Hn).
  split; [done |]. exists d, items, tag, c, name, bases.
  repeat split; try done. by eapply prefix_lookup_Some.
Qed.

Lemma in_store_lookup h l : in_store h (VRef l) = true → is_Some (h !! l).
Proof. intros H. apply lookup_lt_is_Some_2. by apply Nat.ltb_lt. Qed.

Lemma in_store_valid h v : in_store h v = true → valid h v.
Proof. destruct v; try done. apply in_store_lookup. Qed.

Lemma closed_children h l o x :
  closed h = true → h !! l = Some o → In x (children o) → in_store h x = true.
Proof.
  intros Hc Hl Hx. unfold closed in Hc.
  assert (Ho : forallb (in_store h) (children o) = true).
  { apply (proj1 (forallb_forall _ h) Hc). by eapply list_elem_of_In, list_elem_of_lookup_2. }
  by apply (proj1 (forallb_forall _ _) Ho).
Qed.

Lemma truthy_tag_present h items :
  py_truthy h (dict_get "class" items) = true →
  ∃ tag, dict_lookup "class" items = Some tag ∧ dict_get "class" items = tag.
Proof.
  unfold dict_get. destruct (dict_lookup "class" items) as [tag |]; [by eauto | done].
Qed.

(** The two objects a promotion builds. *)
Lemma news_promote s0 self h t l items :
  extends s0 t →
  objects s0 !! l = Some (ODict items) →
  py_truthy h (dict_get "class" items) = true →
  news (promotes_mapping_of (objects s0) self) t
    ((obj ← get_pix_cls (dict_get "class" items);
      new_instance obj self (VRef l)) t).2.
Proof.
  intros Ht Hl Htag. rewrite run_promote. cbn [snd].
  split; [split; [done | by apply prefix_app_r] |]. cbn [objects].
  intros i o Hi Ho. rewrite lookup_app_r in Ho by done.
  destruct (i - length (objects t)) as [| [| j]]; [| | done].
  - by injection Ho as <-.
  - injection Ho as <-. split; [done |].
    destruct (truthy_tag_present _ _ Htag) as (tag & Hlk & Hget).
    exists l, items, tag, (length (objects t)), (py_str (objects t) tag),
      (default [PIXObject] (_registered t !! py_str (objects t) tag)).
    repeat split; try done.
    + rewrite Hget. unfold synthesized. by apply list_lookup_middle.
    + by intros str ->.
Qed.

Section Builds.

Variable s0 : state.
Variable self : val.
Hypothesis s0_closed : closed (objects s0) = true.

Local Abbreviation P := (promotes_mapping_of (objects s0) self).
Local Abbreviation P_stable := (promotes_mapping_of_stable (objects s0) self).

Lemma stored_in_extension t v :
  extends s0 t → in_store (objects s0) v = true →
  deref (objects t) v = deref (objects s0) v.
Proof.
  intros [_ Hp] Hv. by apply deref_prefix_valid, in_store_valid.
Qed.

Lemma objectfy_builds fuel : ∀ v,
  in_store (objects s0) v = true → builds s0 P (objectfy fuel self v).
Proof.
  induction fuel as [| fuel IH]; intros v Hv t Ht; [apply news_refl |].
  destruct v as [| | | | | l];
    try (rewrite objectfy_scalar by done; apply news_refl).
  destruct (in_store_lookup _ _ Hv) as [o Ho].
  pose proof (extends_lookup _ _ _ _ Ht Ho) as Hot.
  assert (Hch : ∀ x, In x (children o) → builds s0 P (objectfy fuel self x)).
  { intros x Hx. apply IH. by eapply closed_children. }
  assert (Hels : ∀ xs, children o = xs →
            builds s0 P (mapM (objectfy fuel self) xs)).
  { intros xs <-. apply builds_mapM; [exact P_stable | done]. }
  destruct o as [items | xs | xs | xs | |].
  - rewrite (objectfy_dict _ _ _ _ _ Hot).
    destruct (py_truthy _ _) eqn:Htag; [by eapply news_promote |].
    refine (builds_bind s0 P P_stable _ _ _ _ t Ht).
    + apply builds_mapM; [exact P_stable |]. intros kv Hkv.
      apply builds_bind; [exact P_stable | | intros; apply builds_ret].
      apply Hch. by apply in_map.
    + intros items'. by apply builds_alloc.
  - rewrite (objectfy_list _ _ _ _ _ Hot).
    refine (builds_bind s0 P P_stable _ _ _ _ t Ht); [by apply Hels |].
    intros rs. by apply builds_alloc.
  - rewrite (objectfy_tuple _ _ _ _ _ Hot).
    refine (builds_bind s0 P P_stable _ _ _ _ t Ht); [by apply Hels |].
    intros rs. apply builds_bind; [exact P_stable | by apply builds_alloc |].
    intros _. by apply builds_alloc.
  - rewrite (objectfy_set _ _ _ _ _ Hot).
    refine (builds_bind s0 P P_stable _ _ _ _ t Ht); [by apply Hels |].
    intros rs. apply builds_bind; [exact P_stable | by apply builds_alloc |].
    intros _. apply builds_bind; [exact P_stable | apply builds_get_heap |].
    intros h'. destruct (py_set h' rs); [by apply builds_alloc | apply builds_raise].
  - rewrite objectfy_scalar by (by eapply is_scalar_leaf). apply news_refl.
  - rewrite objectfy_scalar by (by eapply is_scalar_leaf). apply news_refl.
Qed.


Lemma iter_children_not_dict fuel v recursive t :
  is_dict (objects t) v = false →
  iter_children (S fuel) self v recursive t = (Raise AttributeError, t).
Proof.
  intros H. cbn [iter_children]. unfold get_item, iteritems. rewrite !run_bind.
  unfold is_dict in H. by destruct (deref (objects t) v) as [[] |].
Qed.

Lemma contents_in_store t l items x :
  extends s0 t → objects s0 !! l = Some (ODict items) →
  In x (contents (objects t) items) → in_store (objects s0) x = true.
Proof.
  intros Ht Hl Hx. apply in_contents in Hx as (_ & k & v & Hkv & Hv).
  assert (Hvs : in_store (objects s0) v = true).
  { eapply closed_children; [exact s0_closed | exact Hl |].
    by apply (in_map snd _ (k, v)). }
  destruct Hv as [<- | [_ Hx]]; [done |].
  unfold elements in Hx. rewrite (stored_in_extension _ _ Ht Hvs) in Hx.
  destruct v as [| | | | | l']; try done. cbn [deref] in Hx.
  destruct (objects s0 !! l') as [o' |] eqn:Hl'; [| done].
  eapply closed_children; [exact s0_closed | exact Hl' |].
  by destruct o'.
Qed.

Lemma iter_children_builds fuel : ∀ v recursive,
  in_store (objects s0) v = true →
  builds s0 P (iter_children fuel self v recursive).
Proof.
  induction fuel as [| fuel IH]; intros v recursive Hv t Ht; [apply news_refl |].
  destruct (is_dict (objects t) v) eqn:Hd;
    [| rewrite iter_children_not_dict by done; apply news_refl].
  unfold is_dict in Hd. pose proof (stored_in_extension _ _ Ht Hv) as Hst.
  destruct v as [| | | | | l]; try done. cbn [deref] in *.
  destruct (objects t !! l) as [[items | | | | |] |] eqn:Hot; try done.
  symmetry in Hst. rewrite (iter_children_dict _ _ _ _ _ _ Hot).
  set (own_part := if py_truthy (objects t) (dict_get "class" items) then
                     obj ← get_pix_cls (dict_get "class" items);
                     o ← new_instance obj self (VRef l);
                     mret [o]
                   else mret []).
  assert (Hown : builds s0 P own_part).
  { unfold own_part. destruct (py_truthy _ _) eqn:Htag; [| apply builds_ret].
    intros t1 Ht1. rewrite <- (bind_assoc_M (get_pix_cls _)).
    refine (builds_bind s0 P P_stable _ _ _ _ t1 Ht1);
      [| intros; apply builds_ret].
    intros t2 Ht2. by eapply news_promote. }
  refine (builds_bind_run s0 P P_stable own_part _ Hown _ t Ht).
  intros t1 own t2 Ht1 Hrun.
  assert (Ht2 : extends s0 t2).
  { eapply extends_trans; [exact Ht1 |]. specialize (Hown t1 Ht1).
    rewrite Hrun in Hown. apply Hown. }
  destruct recursive; [| apply news_refl].
  rewrite (run_bind_Ok _ _ _ _ _
             (run_iter_contents _ _ _ (extends_lookup _ _ _ _ Ht2 Hst))).
  refine (builds_bind s0 P P_stable _ _ _ _ t2 Ht2);
    [| intros; apply builds_ret].
  apply builds_mapM; [exact P_stable |]. intros x Hx. apply IH.
  by eapply contents_in_store.
Qed.

End Builds.

(** What [iter_children] yields are references to instances built during
    the call. *)
Definition new_instance_at (s s' : state) (y : val) : Prop :=
  ∃ i p, y = VRef i ∧ length (objects s) ≤ i ∧ objects s' !! i = Some (OInst p).

Lemma new_instance_at_weaken s0 s s' s1 y :
  extends s0 s → extends s' s1 →
  new_instance_at s s' y → new_instance_at s0 s1 y.
Proof.
  intros E0 E1 (i & p & -> & Hi & Hp). exists i, p. split; [done |].
  split; [pose proof (extends_length _ _ E0); lia | by eapply extends_lookup].
Qed.

Lemma iter_children_yields_new fuel self : ∀ v recursive s ys s',
  iter_children fuel self v recursive s = (Ok ys, s') →
  Forall (new_instance_at s s') ys.
Proof.
  induction fuel as [| fuel IH]; intros v recursive s ys s' H; [done |].
  destruct (is_dict (objects s) v) eqn:Hd;
    [| by rewrite iter_children_not_dict in H].
  unfold is_dict in Hd. destruct v as [| | | | | l]; try done. cbn [deref] in Hd.
  destruct (objects s !! l) as [[items | | | | |] |] eqn:Hl; try done.
  rewrite (iter_children_dict _ _ _ _ _ _ Hl) in H.
  destruct (run_own s self l (dict_get "class" items)) as (own & s0 & Ho & E0 & Hown).
  rewrite (run_bind_Ok _ _ _ _ _ Ho) in H.
  assert (Hnew : Forall (new_instance_at s s0) own).
  { unfold own_object in Hown. destruct (py_truthy _ _); [| by subst].
    destruct Hown as (-> & _ & Hi). repeat constructor.
    eexists _, _. split; [done |]. split; [| exact Hi]. lia. }
  destruct recursive.
  - rewrite (run_bind_Ok _ _ _ _ _
               (run_iter_contents _ _ _ (extends_lookup _ _ _ _ E0 Hl))) in H.
    rewrite run_bind in H.
    destruct (mapM (λ x, iter_children fuel self x true)
                (contents (objects s0) items) s0) as [[rest | e] s1] eqn:Hm;
      [| done].
    injection H as <- <-.
    apply mapM_Ok_inv in Hm as [E1 F]; [| intros; apply frame_iter_children].
    apply Forall_app. split.
    + eapply Forall_impl; [exact Hnew |]. intros y.
      apply new_instance_at_weaken; [apply extends_refl | done].
    + apply Forall_concat. clear Hl Hnew.
      induction F as [| x r xs rs (t1 & t2 & Ha & Hb & Hc) F IHF]; constructor;
        [| done].
      eapply Forall_impl; [exact (IH _ _ _ _ _ Hb) |]. intros y.
      apply new_instance_at_weaken; [by eapply extends_trans | done].
  - injection H as <- <-. done.
Qed.

(** X8. Whatever its outcome, every instance [objectfy] builds in a closed
    store refers to the factory and wraps, by reference, a mapping that was
    in the store before the call and has a ['class'] entry; its class is a
    stored class, named by that entry when the entry is a string.  No copy
    is ever wrapped. *)
Theorem objectfy_wraps_input_mappings fuel self v s i p :
  closed (objects s) = true →
  in_store (objects s) v = true →
  length (objects s) ≤ i →
  objects (objectfy fuel self v s).2 !! i = Some (OInst p) →
  obj_factory p = self ∧
  ∃ d items tag c name bases,
    obj_data p = VRef d ∧ objects s !! d = Some (ODict items) ∧
    dict_lookup "class" items = Some tag ∧
    obj_cls p = VRef c ∧
    objects (objectfy fuel self v s).2 !! c = Some (OClass name bases) ∧
    (∀ str, tag = VStr str → name = str).
Proof.
  intros Hc Hv Hi Hp.
  destruct (objectfy_builds s self Hc fuel v Hv s (extends_refl s)) as [_ Hnew].
  exact (Hnew i (OInst p) Hi Hp).
Qed.

(** X7. Everything [iter_children] yields in a closed store is a reference
    to an instance built during the call, which refers to the factory and
    wraps, by reference, a mapping that was in the store before the call
    and has a ['class'] entry. *)
Theorem iter_children_yields_promoted fuel self v recursive s ys s' :
  closed (objects s) = true →
  in_store (objects s) v = true →
  iter_children fuel self v recursive s = (Ok ys, s') →
  Forall (λ y, ∃ i p,
            y = VRef i ∧ length (objects s) ≤ i ∧
            objects s' !! i = Some (OInst p) ∧
            promotes_mapping_of (objects s) self (objects s') (OInst p)) ys.
Proof.
  intros Hc Hv H.
  destruct (iter_children_builds s self Hc fuel v recursive Hv s (extends_refl s))
    as [_ Hnew].
  rewrite H in Hnew. cbn [snd] in Hnew.
  eapply Forall_impl; [exact (iter_children_yields_new _ _ _ _ _ _ _ H) |].
  intros y (i & p & -> & Hi & Hp). exists i, p.
  repeat split; try done; by apply (Hnew i (OInst p) Hi Hp).
Qed.

(** ** What [objectfy] returns

    [promoted_throughout n h v]: within [n] levels below [v], outside the
    promoted objects, no mapping has a true ['class'] entry. *)
Fixpoint promoted_throughout (n : nat) (h : heap) (v : val) : bool :=
  match v with
  | VRef l =>
      match n with
      | O => false
      | S n' =>
          match h !! l with
          | Some (ODict items) =>
              negb (py_truthy h (dict_get "class" items)) &&
              forallb (promoted_throughout n' h) items.*2
          | Some (OList xs) | Some (OTuple xs) | Some (OSet xs) =>
              forallb (promoted_throughout n' h) xs
          | Some _ => true
          | None => false
          end
      end
  | _ => true
  end.

Lemma py_truthy_prefix h h' v :
  h `prefix_of` h' → valid h v → py_truthy h' v = py_truthy h v.
Proof.
  intros Hp. destruct v as [| | | | | l]; try done. intros [o Ho].
  cbn [py_truthy]. by rewrite Ho, (prefix_lookup_Some _ _ _ _ Ho Hp).
Qed.

Lemma dict_lookup_in key items v :
  dict_lookup key items = Some v → In v items.*2.
Proof.
  induction items as [| [k x] items IH]; [done |]. cbn [dict_lookup].
  destruct (String.eqb k key); [intros [= ->]; by left | right; by apply IH].
Qed.

Lemma promoted_throughout_valid n h v :
  promoted_throughout n h v = true → valid h v.
Proof.
  destruct v; try done. destruct n; [done |]. cbn [promoted_throughout valid].
  by destruct (h !! l).
Qed.

Lemma promoted_throughout_prefix n h h' v :
  h `prefix_of` h' →
  promoted_throughout n h v = true → promoted_throughout n h' v = true.
Proof.
  intros Hp. revert v. induction n as [| n IH]; intros [] H; try done.
  cbn [promoted_throughout] in *.
  destruct (h !! l) as [o |] eqn:Hl; [| done].
  rewrite (prefix_lookup_Some _ _ _ _ Hl Hp).
  assert (Hall : ∀ xs, forallb (promoted_throughout n h) xs = true →
                       forallb (promoted_throughout n h') xs = true).
  { intros xs. rewrite !forallb_forall. intros Hxs x Hx. by apply IH, Hxs. }
  destruct o as [items | | | | |]; auto.
  apply andb_true_iff in H as [Htag Hitems]. apply andb_true_iff.
  split; [| auto]. rewrite (py_truthy_prefix h h'); [done | done |].
  unfold dict_get. destruct (dict_lookup "class" items) as [tag |] eqn:Hk; [| done].
  eapply promoted_throughout_valid, forallb_forall; [exact Hitems |].
  by eapply dict_lookup_in.
Qed.

(** How the ['class'] entries of a mapping and of its copy are related,
    when the values are, one by one. *)
Lemma dict_get_related (R : val → val → Prop) key :
  R VNone VNone →
  ∀ items items' : list (string * val),
    items'.*1 = items.*1 → Forall2 R items.*2 items'.*2 →
    R (dict_get key items) (dict_get key items').
Proof.
  intros HN. unfold dict_get.
  induction items as [| [k v] items IH]; intros [| [k' v'] items'] Hk F;
    try done.
  cbn [fmap list_fmap fst snd] in *. injection Hk as -> Hk.
  apply Forall2_cons in F as [Hv F]. cbn [dict_lookup].
  destruct (String.eqb k key); [done | by apply IH].
Qed.

Lemma Forall2_forallb_r {A B} (p : B → bool) (xs : list A) (ys : list B) :
  Forall2 (λ _ y, p y = true) xs ys → forallb p ys = true.
Proof.
  induction 1 as [| x y xs ys Hy _ IH]; [done |]. cbn [forallb]. by rewrite Hy, IH.
Qed.

(** What is known of the result [r] of [objectfy] on [v], in the store
    [h'] reached from [h]. *)
Definition result_ok (n : nat) (h h' : heap) (v r : val) : Prop :=
  promoted_throughout n h' r = true ∧
  nested_within n h' r = true ∧
  py_truthy h' r = py_truthy h v.

Lemma result_ok_prefix n h h1 h2 v r :
  h1 `prefix_of` h2 → result_ok n h h1 v r → result_ok n h h2 v r.
Proof.
  intros Hp (Hpt & Hnw & Htr). split; [by eapply promoted_throughout_prefix |].
  split; [by eapply nested_within_prefix |].
  rewrite <- Htr. apply py_truthy_prefix; [done | by eapply nested_within_valid].
Qed.

Section Result.

Variable self : val.
Variable m : nat.
Hypothesis IH : ∀ v s,
  nested_within m (objects s) v = true →
  ∃ r s', objectfy (S m) self v s = (Ok r, s') ∧
          result_ok m (objects s) (objects s') v r.

Lemma child_result s s1 h' x r :
  nested_within m (objects s) x = true →
  yields_between (objectfy (S m) self) s s1 x r →
  objects s1 `prefix_of` h' →
  result_ok m (objects s) h' x r.
Proof.
  intros Hx (t1 & t2 & Ha & Hb & Hc) Hp.
  destruct (IH x t1) as (r' & t2' & Hr & Hok).
  { eapply nested_within_prefix; [apply Ha | done]. }
  rewrite Hb in Hr. injection Hr as <- <-.
  apply (result_ok_prefix _ _ (objects t2)); [etrans; [apply Hc | done] |].
  destruct Hok as (Hpt & Hnw & Htr). repeat split; try done.
  rewrite Htr. apply py_truthy_prefix; [apply Ha | by eapply nested_within_valid].
Qed.

Lemma children_result s s1 h' xs rs :
  forallb (nested_within m (objects s)) xs = true →
  Forall2 (yields_between (objectfy (S m) self) s s1) xs rs →
  objects s1 `prefix_of` h' →
  Forall2 (result_ok m (objects s) h') xs rs.
Proof.
  intros Hxs F Hp. induction F as [| x r xs rs Hxr F IHF]; [constructor |].
  cbn [forallb] in Hxs. apply andb_true_iff in Hxs as [Hx Hxs].
  constructor; [by eapply child_result | by apply IHF].
Qed.

Lemma children_promoted h h' xs rs :
  Forall2 (result_ok m h h') xs rs →
  forallb (promoted_throughout m h') rs = true ∧
  forallb (nested_within m h') rs = true.
Proof.
  intros F. split; apply (Forall2_forallb_r _ xs);
    (eapply Forall2_impl; [exact F |]); by intros x r (? & ? & ?).
Qed.

End Result.

Lemma lookup_new_second {A} (h : list A) a b :
  (h ++ [a; b]) !! S (length h) = Some b.
Proof.
  rewrite lookup_app_r by lia.
  by replace (S (length h) - length h) with 1 by lia.
Qed.

Lemma objectfy_result self n : ∀ v s,
  nested_within n (objects s) v = true →
  ∃ r s', objectfy (S n) self v s = (Ok r, s') ∧
          result_ok n (objects s) (objects s') v r.
Proof.
  induction n as [| m IH]; intros v s H.
  { destruct v; try done; rewrite objectfy_scalar by done;
      eexists _, _; (split; [done |]); by repeat split. }
  destruct v as [| | | | | l];
    try (rewrite objectfy_scalar by done;
         eexists _, _; (split; [done |]); by repeat split).
  cbn [nested_within] in H.
  destruct (objects s !! l) as [o |] eqn:Hl; [| done].
  destruct o as [items | xs | xs | xs | |].
  - rewrite (objectfy_dict _ _ _ _ _ Hl).
    destruct (py_truthy _ _) eqn:Htag.
    + rewrite run_promote. eexists _, _. split; [done |]. cbn [objects].
      unfold result_ok. cbn [promoted_throughout nested_within py_truthy].
      rewrite lookup_new_second, Hl. repeat split.
      destruct (truthy_tag_present _ _ Htag) as (tag & Hk & _).
      by destruct items.
    + destruct (objectfy_items m self s items H) as (items' & s1 & Hm & E & Hk & F).
      rewrite (run_bind_Ok _ _ _ _ _ Hm).
      eexists _, _. split; [done |]. cbn [objects].
      set (h' := objects s1 ++ [ODict items']).
      assert (Hp : objects s1 `prefix_of` h') by (by apply prefix_app_r).
      pose proof (children_result self m IH s s1 h' _ _ H F Hp) as Hres.
      destruct (children_promoted m _ _ _ _ Hres) as [Hpt Hnw].
      unfold result_ok. cbn [promoted_throughout nested_within py_truthy].
      rewrite !(list_lookup_middle _ [] (ODict items') _ eq_refl : h' !! _ = _), Hl.
      rewrite Hpt, Hnw.
      assert (Htag' : py_truthy h' (dict_get "class" items') =
                      py_truthy (objects s) (dict_get "class" items)).
      { apply (dict_get_related
                 (λ x r, py_truthy h' r = py_truthy (objects s) x)); [done | done |].
        eapply Forall2_impl; [exact Hres |]. by intros x r (? & ? & ?). }
      rewrite Htag', Htag. repeat split.
      apply (f_equal length) in Hk. rewrite !length_fmap in Hk. by rewrite Hk.
  - destruct (objectfy_elements m self s xs H) as (rs & s1 & Hm & E & F).
    rewrite (objectfy_list _ _ _ _ _ Hl), (run_bind_Ok _ _ _ _ _ Hm).
    eexists _, _. split; [done |]. cbn [objects].
    set (h' := objects s1 ++ [OList rs]).
    assert (Hp : objects s1 `prefix_of` h') by (by apply prefix_app_r).
    pose proof (children_result self m IH s s1 h' _ _ H F Hp) as Hres.
    destruct (children_promoted m _ _ _ _ Hres) as [Hpt Hnw].
    unfold result_ok. cbn [promoted_throughout nested_within py_truthy].
    rewrite !(list_lookup_middle _ [] (OList rs) _ eq_refl : h' !! _ = _), Hl.
    repeat split; try done. by rewrite (Forall2_length _ _ _ F).
  - destruct (objectfy_elements m self s xs H) as (rs & s1 & Hm & E & F).
    rewrite (objectfy_tuple _ _ _ _ _ Hl), (run_bind_Ok _ _ _ _ _ Hm).
    eexists _, _. split; [done |]. cbn [objects].
    set (h' := (objects s1 ++ [OList rs]) ++ [OTuple rs]).
    assert (Hp : objects s1 `prefix_of` h').
    { unfold h'. rewrite <- app_assoc. by apply prefix_app_r. }
    pose proof (children_result self m IH s s1 h' _ _ H F Hp) as Hres.
    destruct (children_promoted m _ _ _ _ Hres) as [Hpt Hnw].
    unfold result_ok. cbn [promoted_throughout nested_within py_truthy].
    rewrite !(list_lookup_middle _ [] (OTuple rs) _ eq_refl : h' !! _ = _), Hl.
    repeat split; try done. by rewrite (Forall2_length _ _ _ F).
  - apply andb_true_iff in H as [H Hv].
    destruct (objectfy_elements m self s xs H) as (rs & s1 & Hm & E & F).
    rewrite (objectfy_set _ _ _ _ _ Hl), (run_bind_Ok _ _ _ _ _ Hm).
    rewrite run_bind. cbn [alloc]. rewrite run_bind. cbn [get_heap objects].
    assert (Hset : py_set (objects s1 ++ [OList rs]) rs = Some rs).
    { apply (py_set_same_keys (objects s) _ xs rs Hv).
      - rewrite length_app. pose proof (extends_length _ _ E). lia.
      - eapply elements_same_key; [exact F |]. by apply prefix_app_r. }
    rewrite Hset. eexists _, _. split; [done |]. cbn [objects].
    set (h' := (objects s1 ++ [OList rs]) ++ [OSet rs]).
    assert (Hp : objects s1 `prefix_of` h').
    { unfold h'. rewrite <- app_assoc. by apply prefix_app_r. }
    pose proof (children_result self m IH s s1 h' _ _ H F Hp) as Hres.
    destruct (children_promoted m _ _ _ _ Hres) as [Hpt Hnw].
    unfold result_ok. cbn [promoted_throughout nested_within py_truthy].
    rewrite !(list_lookup_middle _ [] (OSet rs) _ eq_refl : h' !! _ = _), Hl.
    rewrite Hpt, Hnw. cbn [andb].
    assert (Hvalid : valid_set h' rs = true).
    { apply (valid_set_prefix (objects s1 ++ [OList rs])); [by apply prefix_app_r |].
      unfold valid_set. rewrite Hset. apply Nat.eqb_refl. }
    repeat split; try done. by rewrite (Forall2_length _ _ _ F).
  - rewrite objectfy_scalar by (by eapply is_scalar_leaf).
    eexists _, _. split; [done |]. unfold result_ok.
    cbn [promoted_throughout nested_within]. by rewrite Hl.
  - rewrite objectfy_scalar by (by eapply is_scalar_leaf).
    eexists _, _. split; [done |]. unfold result_ok.
    cbn [promoted_throughout nested_within]. by rewrite Hl.
Qed.

Lemma objectfy_fuel_le fuel fuel' self data :
  fuel ≤ fuel' → below (objectfy fuel self data) (objectfy fuel' self data).
Proof.
  induction 1 as [| fuel' _ IH]; [apply below_refl |].
  eapply below_trans; [exact IH | apply objectfy_fuel_S].
Qed.


(** An object that is neither a class nor an instance. *)
Definition plain_container (_ : heap) (o : obj) : Prop :=
  match o with
  | OClass _ _ | OInst _ => False
  | _ => True
  end.

Lemma objectfy_copies fuel self : ∀ n v t,
  promoted_throughout n (objects t) v = true →
  news plain_container t (objectfy fuel self v t).2.
Proof.
  assert (Hst : ∀ h h' o, h `prefix_of` h' →
                  plain_container h o → plain_container h' o) by done.
  induction fuel as [| fuel IH]; intros n v t H; [apply news_refl |].
  destruct v as [| | | | | l];
    try (rewrite objectfy_scalar by done; apply news_refl).
  destruct n as [| n]; [done |]. cbn [promoted_throughout] in H.
  destruct (objects t !! l) as [o |] eqn:Hl; [| done].
  assert (Hels : ∀ xs, forallb (promoted_throughout n (objects t)) xs = true →
            builds t plain_container (mapM (objectfy fuel self) xs)).
  { intros xs Hxs. apply builds_mapM; [exact Hst |]. intros x Hx t' [_ Ht'].
    apply (IH n). eapply promoted_throughout_prefix; [exact Ht' |].
    by apply (proj1 (forallb_forall _ _) Hxs). }
  destruct o as [items | xs | xs | xs | |].
  - apply andb_true_iff in H as [Htag H]. apply negb_true_iff in Htag.
    rewrite (objectfy_dict _ _ _ _ _ Hl), Htag.
    refine (builds_bind t _ Hst _ _ _ _ t (extends_refl t));
      [| intros; by apply builds_alloc].
    apply builds_mapM; [exact Hst |]. intros kv Hkv.
    apply builds_bind; [exact Hst | | intros; apply builds_ret].
    intros t' [_ Ht']. apply (IH n).
    eapply promoted_throughout_prefix; [exact Ht' |].
    apply (proj1 (forallb_forall _ _) H). by apply in_map.
  - rewrite (objectfy_list _ _ _ _ _ Hl).
    refine (builds_bind t _ Hst _ _ _ _ t (extends_refl t)); [by apply Hels |].
    intros; by apply builds_alloc.
  - rewrite (objectfy_tuple _ _ _ _ _ Hl).
    refine (builds_bind t _ Hst _ _ _ _ t (extends_refl t)); [by apply Hels |].
    intros rs. apply builds_bind; [exact Hst | by apply builds_alloc |].
    intros; by apply builds_alloc.
  - rewrite (objectfy_set _ _ _ _ _ Hl).
    refine (builds_bind t _ Hst _ _ _ _ t (extends_refl t)); [by apply Hels |].
    intros rs. apply builds_bind; [exact Hst | by apply builds_alloc |].
    intros _. apply builds_bind; [exact Hst | apply builds_get_heap |].
    intros h'. destruct (py_set h' rs); [by apply builds_alloc | apply builds_raise].
  - rewrite objectfy_scalar by (by eapply is_scalar_leaf). apply news_refl.
  - rewrite objectfy_scalar by (by eapply is_scalar_leaf). apply news_refl.
Qed.

(** X10. Where no mapping has a true ['class'] entry, [objectfy] promotes
    nothing: whatever its outcome it builds dicts, lists, tuples and sets
    only, no class and no instance. *)
Theorem objectfy_without_tags_only_copies fuel depth self v s i o :
  promoted_throughout depth (objects s) v = true →
  length (objects s) ≤ i →
  objects (objectfy fuel self v s).2 !! i = Some o →
  match o with
  | OClass _ _ | OInst _ => False
  | _ => True
  end.
Proof.
  intros H Hi Ho. destruct (objectfy_copies fuel self depth v s H) as [_ Hnew].
  exact (Hnew i o Hi Ho).
Qed.

(** ** No object is yielded twice *)

(** [ys] are references to different objects, all built between [s] and
    [s']. *)
Definition fresh_distinct (s s' : state) (ys : list val) : Prop :=
  NoDup ys ∧
  Forall (λ y, ∃ i, y = VRef i ∧ length (objects s) ≤ i < length (objects s')) ys.

Lemma fresh_distinct_nil s s' : fresh_distinct s s' [].
Proof. split; constructor. Qed.

Lemma fresh_distinct_app s s1 s2 ys zs :
  extends s s1 → extends s1 s2 →
  fresh_distinct s s1 ys → fresh_distinct s1 s2 zs →
  fresh_distinct s s2 (ys ++ zs).
Proof.
  intros E1 E2 [Nys Fys] [Nzs Fzs].
  pose proof (extends_length _ _ E1). pose proof (extends_length _ _ E2).
  split.
  - apply NoDup_app. split; [done |]. split; [| done].
    intros y Hy Hz.
    apply (proj1 (Forall_forall _ _) Fys) in Hy as (i & -> & Hi).
    apply (proj1 (Forall_forall _ _) Fzs) in Hz as (j & [= <-] & Hj). lia.
  - apply Forall_app. split.
    + eapply Forall_impl; [exact Fys |]. intros y (i & -> & Hi). exists i.
      split; [done | lia].
    + eapply Forall_impl; [exact Fzs |]. intros y (i & -> & Hi). exists i.
      split; [done | lia].
Qed.

Lemma mapM_fresh_distinct {A} (f : A → M (list val)) :
  (∀ x, frame (f x)) →
  (∀ x t ys t', f x t = (Ok ys, t') → fresh_distinct t t' ys) →
  ∀ xs t rest t', mapM f xs t = (Ok rest, t') →
                  fresh_distinct t t' (concat rest).
Proof.
  intros Hfr Hf. induction xs as [| x xs IH]; intros t rest t' H.
  - injection H as <- <-. apply fresh_distinct_nil.
  - cbn [mapM] in H. rewrite run_bind in H.
    destruct (f x t) as [[ys | e] t1] eqn:Hx; [| done].
    rewrite run_bind in H.
    destruct (mapM f xs t1) as [[k | e] t2] eqn:Hxs; [| done].
    injection H as <- <-. cbn [concat].
    apply (fresh_distinct_app _ t1); [| | by eapply Hf | by eapply IH].
    + specialize (Hfr x t). by rewrite Hx in Hfr.
    + pose proof (frame_mapM f xs Hfr t1) as Hm. by rewrite Hxs in Hm.
Qed.

Lemma iter_children_fresh_distinct fuel self : ∀ v recursive s ys s',
  iter_children fuel self v recursive s = (Ok ys, s') →
  fresh_distinct s s' ys.
Proof.
  induction fuel as [| fuel IH]; intros v recursive s ys s' H; [done |].
  destruct (is_dict (objects s) v) eqn:Hd;
    [| by rewrite iter_children_not_dict in H].
  unfold is_dict in Hd. destruct v as [| | | | | l]; try done. cbn [deref] in Hd.
  destruct (objects s !! l) as [[items | | | | |] |] eqn:Hl; try done.
  rewrite (iter_children_dict _ _ _ _ _ _ Hl) in H.
  destruct (run_own s self l (dict_get "class" items)) as (own & s0 & Ho & E0 & Hown).
  rewrite (run_bind_Ok _ _ _ _ _ Ho) in H.
  assert (Hnew : fresh_distinct s s0 own).
  { unfold own_object in Hown.
    destruct (py_truthy _ _); [| subst; apply fresh_distinct_nil].
    destruct Hown as (-> & _ & Hi). apply lookup_lt_Some in Hi.
    split; [apply NoDup_singleton |]. repeat constructor.
    eexists. split; [done | lia]. }
  destruct recursive.
  - rewrite (run_bind_Ok _ _ _ _ _
               (run_iter_contents _ _ _ (extends_lookup _ _ _ _ E0 Hl))) in H.
    rewrite run_bind in H.
    destruct (mapM (λ x, iter_children fuel self x true)
                (contents (objects s0) items) s0) as [[rest | e] s1] eqn:Hm;
      [| done].
    injection H as <- <-.
    apply (fresh_distinct_app _ s0); [done | | done |].
    + pose proof (frame_mapM (λ x, iter_children fuel self x true)
                    (contents (objects s0) items)
                    (λ x, frame_iter_children fuel self x true) s0) as Hfr.
      by rewrite Hm in Hfr.
    + eapply mapM_fresh_distinct; [| | exact Hm].
      * intros x. apply frame_iter_children.
      * intros x t zs t'. apply IH.
  - by injection H as <- <-.
Qed.

(** X13. [iter_children] yields no object twice: what it yields are
    references to different objects, even where one mapping is met more
    than once in the data. *)
Theorem iter_children_yields_distinct fuel self v recursive s ys s' :
  iter_children fuel self v recursive s = (Ok ys, s') →
  NoDup ys.
Proof. intros H. by destruct (iter_children_fresh_distinct _ _ _ _ _ _ _ H). Qed.

End Factory.

(** * The examples of the specification, run *)

(** The two facts left open above, fixed for the examples: no tag below is
    anything but a string, and no opaque object occurs. *)
Definition example_repr : heap → val → string := λ _ _, "".
Definition example_truthy : nat → bool := λ _, true.

(** The factory the examples call the methods of. *)
Definition the_factory : val := VOpaque 0.

(** [{"class": "Foo", "children": [{"class": "Bar"}]}], stored at 2, with
    nothing registered. *)
Definition foo_bar : state :=
  mkState ∅ [ODict [("class", VStr "Bar")];
             OList [VRef 0];
             ODict [("class", VStr "Foo"); ("children", VRef 1)]].

(** [{"a": 1, "b": [1, 2, 3]}], stored at 1. *)
Definition a_b : state :=
  mkState ∅ [OList [VInt 1; VInt 2; VInt 3];
             ODict [("a", VInt 1); ("b", VRef 0)]].

(** The set [{1, (2, True), "x"}], stored at 1. *)
Definition a_set : state :=
  mkState ∅ [OTuple [VInt 2; VBool true];
             OSet [VInt 1; VRef 0; VStr "x"]].

(** [{"class": "", "child": {"class": "Bar"}}], stored at 1. *)
Definition empty_tag : state :=
  mkState ∅ [ODict [("class", VStr "Bar")];
             ODict [("class", VStr ""); ("child", VRef 0)]].

(** A promoted object, stored at 2: an instance of a class [Foo] wrapping
    the mapping at 0. *)
Definition promoted_foo : state :=
  mkState ∅ [ODict [("class", VStr "Foo")];
             OClass "Foo" [PIXObject];
             OInst (PixObject (VRef 1) the_factory (VRef 0))].

(** Promotion boundary: one object of a class [Foo], wrapping the mapping
    at 2; the mapping tagged [Bar] inside it is left as it is. *)
Example objectfy_foo_bar :
  objectfy example_repr example_truthy 1 the_factory (VRef 2) foo_bar =
  (Ok (VRef 4),
   mkState ∅ [ODict [("class", VStr "Bar")];
              OList [VRef 0];
              ODict [("class", VStr "Foo"); ("children", VRef 1)];
              OClass "Foo" [PIXObject];
              OInst (PixObject (VRef 3) the_factory (VRef 2))]).
Proof. vm_compute. reflexivity. Qed.

(** Deep child discovery: two objects, of a class [Foo] wrapping the
    mapping at 2, then of a class [Bar] wrapping the mapping at 0. *)
Example iter_children_foo_bar :
  iter_children example_repr example_truthy 3 the_factory (VRef 2) true foo_bar =
  (Ok [VRef 4; VRef 6],
   mkState ∅ [ODict [("class", VStr "Bar")];
              OList [VRef 0];
              ODict [("class", VStr "Foo"); ("children", VRef 1)];
              OClass "Foo" [PIXObject];
              OInst (PixObject (VRef 3) the_factory (VRef 2));
              OClass "Bar" [PIXObject];
              OInst (PixObject (VRef 5) the_factory (VRef 0))]).
Proof. vm_compute. reflexivity. Qed.

(** Without recursion only the mapping's own object is yielded. *)
Example iter_children_foo_bar_shallow :
  (iter_children example_repr example_truthy 1 the_factory (VRef 2) false foo_bar).1 =
  Ok [VRef 4].
Proof. vm_compute. reflexivity. Qed.

(** Untagged passthrough: a new mapping at 3 with the same keys and values,
    its list a new list at 2; no class and no instance is built. *)
Example objectfy_a_b :
  objectfy example_repr example_truthy 3 the_factory (VRef 1) a_b =
  (Ok (VRef 3),
   mkState ∅ [OList [VInt 1; VInt 2; VInt 3];
              ODict [("a", VInt 1); ("b", VRef 0)];
              OList [VInt 1; VInt 2; VInt 3];
              ODict [("a", VInt 1); ("b", VRef 2)]]).
Proof. vm_compute. reflexivity. Qed.

(** Unregistered type fallback. *)
Example get_pix_cls_unknown :
  get_pix_cls example_repr (VStr "Unknown") (mkState ∅ []) =
  (Ok (VRef 0), mkState ∅ [OClass "Unknown" [PIXObject]]).
Proof. vm_compute. reflexivity. Qed.

(** A set keeps its size; the tuple in it is rebuilt. *)
Example objectfy_a_set :
  objectfy example_repr example_truthy 3 the_factory (VRef 1) a_set =
  (Ok (VRef 5),
   mkState ∅ [OTuple [VInt 2; VBool true];
              OSet [VInt 1; VRef 0; VStr "x"];
              OList [VInt 2; VBool true];
              OTuple [VInt 2; VBool true];
              OList [VInt 1; VRef 3; VStr "x"];
              OSet [VInt 1; VRef 3; VStr "x"]]).
Proof. vm_compute. reflexivity. Qed.

(** The recursion limit: a list that contains itself. *)
Example objectfy_cyclic fuel :
  (objectfy example_repr example_truthy fuel the_factory (VRef 0)
     (mkState ∅ [OList [VRef 0]])).1 = Raise RecursionLimit.
Proof.
  assert (H : ∀ s, objects s !! 0 = Some (OList [VRef 0]) →
            (objectfy example_repr example_truthy fuel the_factory (VRef 0) s).1 =
            Raise RecursionLimit); [| by apply H].
  induction fuel as [| fuel IH]; intros s Hs; [done |].
  rewrite (objectfy_list _ _ _ _ _ _ _ Hs). cbn [mapM]. rewrite !run_bind.
  specialize (IH s Hs).
  by destruct (objectfy example_repr example_truthy fuel the_factory (VRef 0) s)
    as [[r | e] s1]; simpl in IH; subst.
Qed.

(** * The theorems at the examples *)






Lemma objectfy_promoted_object_witness :
  objects promoted_foo !! 2 = Some (OInst (PixObject (VRef 1) the_factory (VRef 0))) ∧
  objectfy example_repr example_truthy 1 the_factory (VRef 2) promoted_foo =
  (Ok (VRef 2), promoted_foo).
Proof.
  split; [reflexivity |].
  apply (objectfy_promoted_object example_repr example_truthy 0 the_factory
           promoted_foo 2 (VRef 1) the_factory (VRef 0)); reflexivity.
Defined.

Lemma objectfy_scalar_identity_witness :
  is_scalar (objects a_b) (VStr "x") = true ∧
  objectfy example_repr example_truthy 1 the_factory (VStr "x") a_b =
  (Ok (VStr "x"), a_b).
Proof.
  split; [reflexivity |].
  apply (objectfy_scalar_identity example_repr example_truthy 0 the_factory a_b
           (VStr "x")); reflexivity.
Defined.


(** * The further properties at examples *)

(** One behaviour class registered for [Foo], and nothing stored. *)
Definition foo_registered : state := mkState {[ "Foo" := [Behavior 1] ]} [].

(** [{"class": "Foo", "children": [bar, bar]}] with the same mapping
    [bar = {"class": "Bar"}] twice in the list, stored at 2. *)
Definition bar_twice : state :=
  mkState ∅ [ODict [("class", VStr "Bar")];
             OList [VRef 0; VRef 0];
             ODict [("class", VStr "Foo"); ("children", VRef 1)]].

Lemma register_other_names_witness :
  "Bar" ≠ "Foo" ∧
  _registered (register "Foo" (Behavior 2) foo_registered).2 !! "Bar" = None ∧
  objects (register "Foo" (Behavior 2) foo_registered).2 = [].
Proof.
  split; [discriminate |].
  apply (register_other_names "Foo" "Bar" (Behavior 2) foo_registered).
  discriminate.
Defined.


Lemma iter_contents_yields_witness :
  objects foo_bar !! 2 =
    Some (ODict [("class", VStr "Foo"); ("children", VRef 1)]) ∧
  ∃ xs,
    iter_contents (VRef 2) foo_bar = (Ok xs, foo_bar) ∧
    ∀ x, In x xs ↔
         is_dict (objects foo_bar) x = true ∧
         ∃ k v, In (k, v) [("class", VStr "Foo"); ("children", VRef 1)] ∧
                (v = x ∨ (is_dict (objects foo_bar) v = false ∧
                          In x (elements (objects foo_bar) v))).
Proof.
  split; [reflexivity |].
  apply (iter_contents_yields foo_bar 2
           [("class", VStr "Foo"); ("children", VRef 1)]).
  reflexivity.
Defined.

Lemma iterators_need_a_mapping_witness :
  not_a_mapping (objects foo_bar) (VRef 1) = true ∧
  iter_contents (VRef 1) foo_bar = (Raise AttributeError, foo_bar) ∧
  iter_children example_repr example_truthy 1 the_factory (VRef 1) true foo_bar =
    (Raise AttributeError, foo_bar).
Proof.
  split; [reflexivity |].
  apply (iterators_need_a_mapping example_repr example_truthy 0 the_factory
           (VRef 1) true foo_bar).
  reflexivity.
Defined.


Lemma iter_children_yields_promoted_witness :
  closed (objects bar_twice) = true ∧
  in_store (objects bar_twice) (VRef 2) = true ∧
  Forall (λ y, ∃ i p,
            y = VRef i ∧ 3 ≤ i ∧
            objects (iter_children example_repr example_truthy 3 the_factory
                       (VRef 2) true bar_twice).2 !! i = Some (OInst p) ∧
            promotes_mapping_of (objects bar_twice) the_factory
              (objects (iter_children example_repr example_truthy 3 the_factory
                          (VRef 2) true bar_twice).2) (OInst p))
    [VRef 4; VRef 6; VRef 8].
Proof.
  split; [reflexivity |]. split; [reflexivity |].
  apply (iter_children_yields_promoted example_repr example_truthy 3 the_factory
           (VRef 2) true bar_twice); [reflexivity | reflexivity |].
  vm_compute. reflexivity.
Defined.

Lemma objectfy_wraps_input_mappings_witness :
  closed (objects foo_bar) = true ∧
  in_store (objects foo_bar) (VRef 2) = true ∧
  objects (objectfy example_repr example_truthy 1 the_factory (VRef 2) foo_bar).2 !! 4 =
    Some (OInst (PixObject (VRef 3) the_factory (VRef 2))) ∧
  the_factory = the_factory ∧
  ∃ d items tag c name bases,
    VRef 2 = VRef d ∧ objects foo_bar !! d = Some (ODict items) ∧
    dict_lookup "class" items = Some tag ∧
    VRef 3 = VRef c ∧
    objects (objectfy example_repr example_truthy 1 the_factory (VRef 2) foo_bar).2 !! c =
      Some (OClass name bases) ∧
    (∀ str, tag = VStr str → name = str).
Proof.
  split; [reflexivity |]. split; [reflexivity |]. split; [reflexivity |].
  apply (objectfy_wraps_input_mappings example_repr example_truthy 1 the_factory
           (VRef 2) foo_bar 4 (PixObject (VRef 3) the_factory (VRef 2)));
    [reflexivity | reflexivity | simpl; lia | reflexivity].
Defined.


Lemma objectfy_without_tags_only_copies_witness :
  promoted_throughout example_truthy 2 (objects a_b) (VRef 1) = true ∧
  objects (objectfy example_repr example_truthy 3 the_factory (VRef 1) a_b).2 !! 2 =
    Some (OList [VInt 1; VInt 2; VInt 3]) ∧
  True.
Proof.
  split; [reflexivity |]. split; [reflexivity |].
  apply (objectfy_without_tags_only_copies example_repr example_truthy 3 2
           the_factory (VRef 1) a_b 2 (OList [VInt 1; VInt 2; VInt 3]));
    [reflexivity | simpl; lia | reflexivity].
Defined.


Lemma objectfy_keeps_key_witness :
  objectfy example_repr example_truthy 2 the_factory (VRef 0) a_set =
    (Ok (VRef 3),
     (objectfy example_repr example_truthy 2 the_factory (VRef 0) a_set).2) ∧
  py_hash_key 1 (objects a_set) (VRef 0) = Some (KTuple [KInt 2; KInt 1]) ∧
  py_hash_key 1
    (objects (objectfy example_repr example_truthy 2 the_factory (VRef 0) a_set).2)
    (VRef 3) = Some (KTuple [KInt 2; KInt 1]).
Proof.
  split; [reflexivity |]. split; [reflexivity |].
  apply (objectfy_keeps_key example_repr example_truthy 2 the_factory (VRef 0) a_set
           (VRef 3)
           (objectfy example_repr example_truthy 2 the_factory (VRef 0) a_set).2
           1 (KTuple [KInt 2; KInt 1])); reflexivity.
Defined.

Lemma iter_children_yields_distinct_witness :
  (iter_children example_repr example_truthy 3 the_factory (VRef 2) true bar_twice).1 =
    Ok [VRef 4; VRef 6; VRef 8] ∧
  NoDup [VRef 4; VRef 6; VRef 8].
Proof.
  split; [reflexivity |].
  apply (iter_children_yields_distinct example_repr example_truthy 3 the_factory
           (VRef 2) true bar_twice [VRef 4; VRef 6; VRef 8]
           (iter_children example_repr example_truthy 3 the_factory (VRef 2) true
              bar_twice).2).
  reflexivity.
Defined.
